(** * DocWorkflowManager: a shallow embedding of the workflow engine

    The development follows [src/docs/DocWorkflowManager.ts] and the tool
    dispatcher of [src/server.ts].  JavaScript strings are modelled as
    [string], read as sequences of code units below 256; arrays live in a
    store of array objects so that aliasing is visible; everything the code
    obtains from Node.js or from a library (file system, HTTP client,
    [JSON.parse], the zip reader, child processes) is taken from a
    [Platform] record. *)

From Stdlib Require Import Ascii String NArith.
From stdpp Require Import base list strings gmap pretty.

Local Open Scope string_scope.
Local Open Scope list_scope.

(** ** Text primitives of the JavaScript runtime *)

Module Str.

Definition code (a : ascii) : N := N_of_ascii a.

(** Line terminators that the [.] of a regular expression refuses. *)
Definition isLineTerminator (a : ascii) : bool :=
  (code a =? 10)%N || (code a =? 13)%N.

(** [\s], which is also what [String.prototype.trim] strips. *)
Definition isWhiteSpace (a : ascii) : bool :=
  ((9 <=? code a)%N && (code a <=? 13)%N) || (code a =? 32)%N || (code a =? 160)%N.

Definition isDigit (a : ascii) : bool :=
  (48 <=? code a)%N && (code a <=? 57)%N.

Definition toLowerChar (a : ascii) : ascii :=
  let c := code a in
  if ((65 <=? c)%N && (c <=? 90)%N)
     || ((192 <=? c)%N && (c <=? 222)%N && negb (c =? 215)%N)
  then ascii_of_N (c + 32) else a.

Fixpoint toLowerCase (s : string) : string :=
  match s with
  | EmptyString => EmptyString
  | String a s' => String (toLowerChar a) (toLowerCase s')
  end.

Fixpoint startsWith (s p : string) : bool :=
  match p, s with
  | EmptyString, _ => true
  | String b p', String a s' => Ascii.eqb a b && startsWith s' p'
  | String _ _, EmptyString => false
  end.

(** [s.includes(needle)] *)
Fixpoint includes (s needle : string) : bool :=
  startsWith s needle ||
  match s with
  | EmptyString => false
  | String _ s' => includes s' needle
  end.

Fixpoint trimStart (s : string) : string :=
  match s with
  | EmptyString => EmptyString
  | String a s' => if isWhiteSpace a then trimStart s' else s
  end.

Fixpoint trimEnd (s : string) : string :=
  match s with
  | EmptyString => EmptyString
  | String a s' =>
      match trimEnd s' with
      | EmptyString => if isWhiteSpace a then EmptyString else String a EmptyString
      | r => String a r
      end
  end.

Definition trim (s : string) : string := trimEnd (trimStart s).

(** [s.split('\n')] *)
Fixpoint splitLines (s : string) : list string :=
  match s with
  | EmptyString => [EmptyString]
  | String a s' =>
      if (code a =? 10)%N then EmptyString :: splitLines s'
      else match splitLines s' with
           | l :: ls => String a l :: ls
           | [] => [String a EmptyString]
           end
  end.

(** [s.replace(/c/g, rep)] for a one-character literal pattern. *)
Fixpoint replaceAll1 (c : ascii) (rep s : string) : string :=
  match s with
  | EmptyString => EmptyString
  | String a s' =>
      if Ascii.eqb a c then rep +:+ replaceAll1 c rep s'
      else String a (replaceAll1 c rep s')
  end.

(** [s.replace(/cc/g, rep)] for a doubled character: matches are taken
    left to right and do not overlap. *)
Fixpoint replaceAll2 (c : ascii) (rep s : string) : string :=
  match s with
  | EmptyString => EmptyString
  | String a s' =>
      match s' with
      | String b s'' =>
          if Ascii.eqb a c && Ascii.eqb b c then rep +:+ replaceAll2 c rep s''
          else String a (replaceAll2 c rep s')
      | EmptyString => s
      end
  end.

Definition allWhite (s : string) : bool :=
  forallb isWhiteSpace (list_ascii_of_string s).

Definition nl : string := String (ascii_of_N 10) EmptyString.

End Str.

(** ** Regular expressions

    The fragment of ECMAScript regular expressions that the program builds:
    fully anchored patterns made of single-character matchers, greedy [*]
    and [+] on them, and unnested capture groups. *)

Module Regex.

Inductive CharSet : Type :=
| CsAny
| CsDigit
| CsSpace
| CsChar (a : ascii)
| CsClass (negated : bool) (items : list (ascii * ascii)).

Inductive Node : Type :=
| NChar (c : CharSet)
| NStar (c : CharSet)
| NOpen
| NClose.

Definition inRange (a : ascii) (r : ascii * ascii) : bool :=
  (Str.code r.1 <=? Str.code a)%N && (Str.code a <=? Str.code r.2)%N.

Definition accepts (c : CharSet) (a : ascii) : bool :=
  match c with
  | CsAny => negb (Str.isLineTerminator a)
  | CsDigit => Str.isDigit a
  | CsSpace => Str.isWhiteSpace a
  | CsChar b => Ascii.eqb a b
  | CsClass neg items => xorb neg (existsb (inRange a) items)
  end.

Definition isSyntaxChar (a : ascii) : bool :=
  existsb (Ascii.eqb a) (list_ascii_of_string "^$\.*+?()[]{}|").

Definition isAlnum (a : ascii) : bool :=
  let c := Str.code a in
  Str.isDigit a || ((65 <=? c)%N && (c <=? 90)%N) || ((97 <=? c)%N && (c <=? 122)%N).

(** Members of a bracket class, up to and including the closing bracket. *)
Fixpoint classItems (s : string) : option (list (ascii * ascii) * string) :=
  match s with
  | EmptyString => None
  | String a rest =>
      if Ascii.eqb a "]" then Some ([], rest)
      else if Ascii.eqb a "\" then
        match rest with
        | String b rest' =>
            if isSyntaxChar b || Ascii.eqb b "/" || Ascii.eqb b "-" then
              match classItems rest' with
              | Some (items, r) => Some ((b, b) :: items, r)
              | None => None
              end
            else None
        | EmptyString => None
        end
      else if Ascii.eqb a "-" then None
      else
        match rest with
        | String "-" (String hi rest') =>
            if isAlnum a && isAlnum hi && (Str.code a <=? Str.code hi)%N then
              match classItems rest' with
              | Some (items, r) => Some ((a, hi) :: items, r)
              | None => None
              end
            else None
        | _ =>
            match classItems rest with
            | Some (items, r) => Some ((a, a) :: items, r)
            | None => None
            end
        end
  end.

(** One single-character matcher at the head of [s]. *)
Definition parseAtom (s : string) : option (CharSet * string) :=
  match s with
  | EmptyString => None
  | String a rest =>
      if Ascii.eqb a "." then Some (CsAny, rest)
      else if Ascii.eqb a "\" then
        match rest with
        | String b rest' =>
            if Ascii.eqb b "d" then Some (CsDigit, rest')
            else if Ascii.eqb b "s" then Some (CsSpace, rest')
            else if isSyntaxChar b || Ascii.eqb b "/" then Some (CsChar b, rest')
            else None
        | EmptyString => None
        end
      else if Ascii.eqb a "[" then
        match rest with
        | String "^" rest' =>
            match classItems rest' with
            | Some (items, r) => Some (CsClass true items, r)
            | None => None
            end
        | _ =>
            match classItems rest with
            | Some (items, r) => Some (CsClass false items, r)
            | None => None
            end
        end
      else if isSyntaxChar a then None
      else Some (CsChar a, rest)
  end.

Fixpoint parseSeq (fuel : nat) (inGroup : bool) (s : string) : option (list Node) :=
  match fuel with
  | O => None
  | S fuel' =>
      match s with
      | EmptyString => None
      | String a rest =>
          if Ascii.eqb a "$" then
            if inGroup then None
            else match rest with EmptyString => Some [] | _ => None end
          else if Ascii.eqb a "(" then
            if inGroup then None
            else cons NOpen <$> parseSeq fuel' true rest
          else if Ascii.eqb a ")" then
            if inGroup then cons NClose <$> parseSeq fuel' false rest
            else None
          else
            match parseAtom s with
            | None => None
            | Some (c, rest') =>
                match rest' with
                | String "*" rest'' =>
                    cons (NStar c) <$> parseSeq fuel' inGroup rest''
                | String "+" rest'' =>
                    (fun r => NChar c :: NStar c :: r) <$> parseSeq fuel' inGroup rest''
                | _ => cons (NChar c) <$> parseSeq fuel' inGroup rest'
                end
            end
      end
  end.

(** [new RegExp(src)] for a source of the form [^...$] inside the
    fragment; [None] for every other source. *)
Definition compile (src : string) : option (list Node) :=
  match src with
  | String "^" body => parseSeq (String.length body) false body
  | _ => None
  end.

(** Backtracking matcher.  [cur] is the input as it stood when the open
    group started; a match returns the captured groups in order. *)
Fixpoint exec (r : list Node) (s : string) (cur : option string)
    (caps : list string) : option (list string) :=
  match r with
  | [] => match s with EmptyString => Some caps | _ => None end
  | NChar c :: r' =>
      match s with
      | String a s' => if accepts c a then exec r' s' cur caps else None
      | EmptyString => None
      end
  | NStar c :: r' =>
      (fix star (s : string) : option (list string) :=
         match s with
         | String a s' =>
             if accepts c a then
               match star s' with
               | Some out => Some out
               | None => exec r' s cur caps
               end
             else exec r' s cur caps
         | EmptyString => exec r' s cur caps
         end) s
  | NOpen :: r' => exec r' s (Some s) caps
  | NClose :: r' =>
      match cur with
      | Some start =>
          exec r' s None
            (caps ++ [substring 0 (String.length start - String.length s) start])
      | None => None
      end
  end.

Definition run (r : list Node) (s : string) : option (list string) :=
  exec r s None [].

End Regex.

(** ** Values that cross the boundary with the runtime *)

(** A thrown value: whether it is an [Error] instance, its [message], and
    what string interpolation prints for it. *)
Record Thrown : Type := mkThrown {
  isError : bool;
  message : string;
  rendered : string
}.

Inductive Result (A : Type) : Type :=
| Ok (a : A)
| Throw (e : Thrown).
Arguments Ok {A} a.
Arguments Throw {A} e.

(** What [JSON.parse] returns.  Numbers are kept abstract in [Num]. *)
#[warnings="-register-all"]
Inductive JSON (Num : Type) : Type :=
| JNull
| JBool (b : bool)
| JNumber (n : Num)
| JString (s : string)
| JArray (items : list (JSON Num))
| JObject (fields : list (string * JSON Num)).
Arguments JNull {Num}.
Arguments JBool {Num} b.
Arguments JNumber {Num} n.
Arguments JString {Num} s.
Arguments JArray {Num} items.
Arguments JObject {Num} fields.

(** [obj.key] on a parsed object: of duplicate keys the last one wins. *)
Fixpoint getProp {Num} (key : string) (fields : list (string * JSON Num))
    : option (JSON Num) :=
  match fields with
  | [] => None
  | (k, v) :: rest =>
      match getProp key rest with
      | Some v' => Some v'
      | None => if String.eqb k key then Some v else None
      end
  end.

Definition Buffer : Type := string.

(** The outcome of [axios.get] under [validateStatus: status === 200]. *)
Record AxiosError : Type := mkAxiosError {
  ax_response : option (N * string);   (* status, statusText *)
  ax_request : bool;
  ax_message : string;
  ax_code : option string
}.

Inductive AxiosOutcome : Type :=
| AxiosResponse (contentTypeHeader : option string) (body : Buffer)
| AxiosRejected (e : AxiosError)
| OtherRejected (e : Thrown).

Inductive ExecOutcome : Type :=
| ExecOk (stdout stderr : string)
| ExecFailed (code msg : string) (stdout stderr : option string).

(** A directory as [fs.readdir(dir, { withFileTypes: true })] reports it,
    followed into its subdirectories. *)
Inductive DirListing : Type :=
| Listing (entries : list Dirent)
| ReaddirFails (e : Thrown)
with Dirent : Type :=
| FileEntry (name : string)
| DirEntry (name : string) (contents : DirListing).

Record Platform : Type := {
  World : Type;
  Num : Type;
  numberIsZero : Num -> bool;
  path_join : list string -> string;
  fs_readFile : string -> World -> Result string * World;
  fs_access : string -> World -> bool * World;
  fs_mkdir : string -> World -> option Thrown * World;
  fs_writeFile : string -> Buffer -> World -> option Thrown * World;
  fs_readdir : string -> World -> DirListing * World;
  axios_get : string -> World -> AxiosOutcome * World;
  Buffer_toString : Buffer -> string;
  JSON_parse : string -> option (JSON Num);
  yauzl_open : string -> World -> option Thrown * World;
  yauzl_entries : string -> string -> World -> Result bool * World;
  child_exec : string -> World -> ExecOutcome * World;
  RegExp_test : string -> string -> Result bool;
  (* the message of the [TypeError] raised by reading the named property
     of [undefined] *)
  TypeError_undefined : string -> string
}.

(** ** The data model of the workflow manager *)

Record Directive : Type := mkDirective {
  type : string;
  target : string;
  raw : string
}.

Record DownloadResult (Num : Type) : Type := mkDownloadResult {
  url : string;
  data : option Buffer;
  contentType : string;
  isExpired : bool;
  expiryInstructions : option (JSON Num)
}.
Arguments mkDownloadResult {Num} url data contentType isExpired expiryInstructions.
Arguments url {Num} d.
Arguments data {Num} d.
Arguments contentType {Num} d.
Arguments isExpired {Num} d.
Arguments expiryInstructions {Num} d.

Inductive Method : Type :=
| MDownload | MUnzip | MValidate | MImplement | MFallback.

Inductive Level : Type := LLog | LError.

Inductive Printed (Num : Type) : Type :=
| PStr (s : string)
| PJson (v : JSON Num)
| PThrown (e : Thrown).
Arguments PStr {Num} s.
Arguments PJson {Num} v.
Arguments PThrown {Num} e.

Inductive IoOp : Type :=
| ReadFile (path : string)
| Access (path : string)
| Mkdir (path : string)
| WriteFile (path : string) (bytes : Buffer)
| Readdir (path : string)
| HttpGet (url : string)
| ZipOpen (path : string)
| ZipEntries (path destination : string)
| Exec (command : string).

(** What a run leaves behind, in order: console output, requests made to
    the platform, and the entry of each handler method. *)
Inductive Event (Num : Type) : Type :=
| Console (lvl : Level) (args : list (Printed Num))
| IO (op : IoOp)
| Enter (m : Method) (arg : string).
Arguments Console {Num} lvl args.
Arguments IO {Num} op.
Arguments Enter {Num} m arg.

(** ** Directive parsing (pure part) *)

Definition listItemRegex : option (list Regex.Node) :=
  Regex.compile "^\d+\.\s+\*\*([a-zA-Z]+)\*\*\s+(.+)$".

(** [line.match(listItemRegex)], as the pair of captured groups. *)
Definition matchListItem (line : string) : option (string * string) :=
  match listItemRegex with
  | Some r =>
      match Regex.run r line with
      | Some [ty; tg] => Some (ty, tg)
      | _ => None
      end
  | None => None
  end.

Definition directiveTypes : list string :=
  ["download"; "unzip"; "validate"; "implement"].

Definition isDirectiveType (t : string) : bool :=
  existsb (String.eqb t) directiveTypes.

(** The body of the loop over the lines of the plan: the directive list
    after the line has been looked at. *)
Definition parseLine (directives : list Directive) (line : string) : list Directive :=
  match matchListItem line with
  | Some (ty, tg) =>
      let directiveType := Str.toLowerCase ty in
      if isDirectiveType directiveType then
        directives ++ [mkDirective directiveType (Str.trim tg) (Str.trim line)]
      else directives
  | None => directives
  end.

Definition parseDirectives (content : string) : list Directive :=
  fold_left parseLine (Str.splitLines content) [].

(** ** Glob translation *)

Definition globToRegexSource (pattern : string) : string :=
  Str.replaceAll1 "." "\."
    (Str.replaceAll1 "?" "[^\/]"
       (Str.replaceAll1 "*" "[^\/]*"
          (Str.replaceAll2 "*" ".*" pattern))).

(** ** The workflow manager over a platform *)

Section Manager.

Context (P : Platform).

(** The state a method runs in: the outside world, the store of array
    objects, the two fields of the manager, and the trace so far. *)
Record Sys : Type := mkSys {
  world : World P;
  arrays : gmap positive (list (DownloadResult (Num P)));
  this_implementationPlanPath : string;
  this_downloadHistory : positive;
  trace : list (Event (Num P))
}.

Definition M (A : Type) : Type := Sys -> A * Sys.

#[global] Instance M_ret : MRet M := fun A a s => (a, s).
#[global] Instance M_bind : MBind M :=
  fun A B f m s => let '(a, s') := m s in f a s'.

Definition emit (e : Event (Num P)) : M unit := fun s =>
  (tt, mkSys (world s) (arrays s) (this_implementationPlanPath s)
         (this_downloadHistory s) (trace s ++ [e])).

Definition console_log (msg : string) : M unit :=
  emit (Console LLog [PStr msg]).

Definition console_error (msg : string) : M unit :=
  emit (Console LError [PStr msg]).

(** A call into the platform: it is recorded, and it may change the
    world. *)
Definition request {A} (op : IoOp) (f : World P -> A * World P) : M A := fun s =>
  let '(a, w) := f (world s) in
  (a, mkSys w (arrays s) (this_implementationPlanPath s)
        (this_downloadHistory s) (trace s ++ [IO op])).

(** *** Array objects *)

Definition contents (l : positive) (s : Sys) : list (DownloadResult (Num P)) :=
  default [] (arrays s !! l).

Definition readArray (l : positive) : M (list (DownloadResult (Num P))) :=
  fun s => (contents l s, s).

Definition newArray (xs : list (DownloadResult (Num P))) : M positive := fun s =>
  let l := fresh (dom (arrays s)) in
  (l, mkSys (world s) (<[l := xs]> (arrays s)) (this_implementationPlanPath s)
        (this_downloadHistory s) (trace s)).

Definition writeArray (l : positive) (xs : list (DownloadResult (Num P))) : M unit :=
  fun s =>
  (tt, mkSys (world s) (<[l := xs]> (arrays s)) (this_implementationPlanPath s)
         (this_downloadHistory s) (trace s)).

Definition array_push (l : positive) (x : DownloadResult (Num P)) : M unit :=
  xs ← readArray l; writeArray l (xs ++ [x]).

Definition get_downloadHistory : M positive :=
  fun s => (this_downloadHistory s, s).

Definition set_downloadHistory (l : positive) : M unit := fun s =>
  (tt, mkSys (world s) (arrays s) (this_implementationPlanPath s) l (trace s)).

(** The records of the ledger, oldest first. *)
Definition history (s : Sys) : list (DownloadResult (Num P)) :=
  contents (this_downloadHistory s) s.

(** [new DocWorkflowManager(projectRoot)] in a world [w]. *)
Definition construct (projectRoot : string) (w : World P) : Sys :=
  mkSys w {[ 1%positive := [] ]}
    (path_join P [projectRoot; "docs"; "implementation_plan.md"]) 1%positive [].

(** [return [...this.downloadHistory]] *)
Definition getDownloadHistory : M positive :=
  l ← get_downloadHistory; xs ← readArray l; newArray xs.

(** [this.downloadHistory = []] *)
Definition clearDownloadHistory : M unit :=
  l ← newArray []; set_downloadHistory l.

(** *** parseImplementationPlan *)

Definition parseImplementationPlan : M (Result (list Directive)) :=
  path ← (fun s => (this_implementationPlanPath s, s));
  r ← request (ReadFile path) (fs_readFile P path);
  match r with
  | Throw e => mret (Throw e)
  | Ok content => mret (Ok (parseDirectives content))
  end.

(** *** processDownload *)

Definition truthy (v : JSON (Num P)) : bool :=
  match v with
  | JNull => false
  | JBool b => b
  | JNumber n => negb (numberIsZero P n)
  | JString s => negb (String.eqb s "")
  | JArray _ | JObject _ => true
  end.

Inductive ExpiryCheck : Type :=
| Expired (instructions : option (JSON (Num P)))
| NotExpired
| CheckThrows.

(** [jsonResponse.message &&
     jsonResponse.message.toLowerCase().includes('url expired')] *)
Definition expiryCheck (jsonResponse : JSON (Num P)) : ExpiryCheck :=
  match jsonResponse with
  | JNull => CheckThrows
  | JObject fields =>
      match getProp "message" fields with
      | None => NotExpired
      | Some m =>
          if truthy m then
            match m with
            | JString text =>
                if Str.includes (Str.toLowerCase text) "url expired"
                then Expired (getProp "instructions" fields)
                else NotExpired
            | _ => CheckThrows
            end
          else NotExpired
      end
  | _ => NotExpired
  end.

Definition pushDownload (r : DownloadResult (Num P)) : M unit :=
  l ← get_downloadHistory; array_push l r.

Definition downloadSucceeded (url : string) (data : Buffer) (contentType : string)
    : M bool :=
  pushDownload (mkDownloadResult url (Some data) contentType false None);;
  console_log ("Download successful: " +:+ pretty (String.length data)
               +:+ " bytes, content-type: " +:+ contentType);;
  mret true.

Definition downloadFailed (error : AxiosOutcome) : M bool :=
  match error with
  | AxiosRejected e =>
      match ax_response e with
      | Some (status, statusText) =>
          console_error ("Download failed with status " +:+ pretty status
                         +:+ ": " +:+ statusText)
      | None =>
          if ax_request e
          then console_error "Download failed: No response received from server"
          else console_error ("Download failed: " +:+ ax_message e)
      end;;
      match ax_code e with
      | Some c =>
          if String.eqb c "ECONNABORTED"
          then console_error "Download timed out after 30 seconds"
          else mret tt
      | None => mret tt
      end;;
      mret false
  | OtherRejected e =>
      console_error ("Download failed: " +:+ rendered e);;
      mret false
  | AxiosResponse _ _ => mret false
  end.

Definition processDownload (url : string) : M bool :=
  emit (Enter MDownload url);;
  console_log ("Downloading from: " +:+ url);;
  response ← request (HttpGet url) (axios_get P url);
  match response with
  | AxiosResponse header body =>
      let contentType :=
        match header with
        | Some h => h
        | None => ""
        end in
      let data := body in
      if Str.includes contentType "application/json" then
        match JSON_parse P (Buffer_toString P data) with
        | Some jsonResponse =>
            match expiryCheck jsonResponse with
            | Expired instructions =>
                console_error "URL has expired. Aborting processing.";;
                match instructions with
                | Some v =>
                    if truthy v
                    then emit (Console LLog [PStr "Instructions:"; PJson v])
                    else mret tt
                | None => mret tt
                end;;
                pushDownload (mkDownloadResult url None contentType true instructions);;
                mret false
            | NotExpired => downloadSucceeded url data contentType
            | CheckThrows =>
                console_log "Response is not valid JSON, treating as binary data";;
                downloadSucceeded url data contentType
            end
        | None =>
            console_log "Response is not valid JSON, treating as binary data";;
            downloadSucceeded url data contentType
        end
      else downloadSucceeded url data contentType
  | failure => downloadFailed failure
  end.

(** *** processUnzip *)

Definition orDefault (s dflt : string) : string :=
  if String.eqb s "" then dflt else s.

Definition indicatesArchive (contentType : string) : bool :=
  Str.includes contentType "zip" || Str.includes contentType "octet-stream".

(** The [catch] clause of [processUnzip]. *)
Definition unzipFailed (error : Thrown) : M (Result bool) :=
  console_error ("Unzip failed: " +:+ rendered error);;
  mret (Ok false).

Definition processUnzip (targetPath : string) : M (Result bool) :=
  emit (Enter MUnzip targetPath);;
  let destination := orDefault targetPath "documentation" in
  console_log ("Unzipping to: " +:+ destination);;
  copy ← getDownloadHistory;
  downloadHistory ← readArray copy;
  match last downloadHistory with
  | None =>
      console_error "No downloads available to unzip";;
      mret (Ok false)
  | Some latestDownload =>
      match data latestDownload with
      | None =>
          console_error "No data available in latest download";;
          mret (Ok false)
      | Some bytes =>
          if negb (indicatesArchive (contentType latestDownload)) then
            console_error ("Content type " +:+ contentType latestDownload
                           +:+ " is not a zip file");;
            mret (Ok false)
          else
            made ← request (Mkdir destination) (fs_mkdir P destination);
            match made with
            | Some e => unzipFailed e
            | None =>
                let tempZipPath := path_join P [destination; "temp_download.zip"] in
                written ← request (WriteFile tempZipPath bytes)
                                  (fs_writeFile P tempZipPath bytes);
                match written with
                | Some e => unzipFailed e
                | None =>
                    opened ← request (ZipOpen tempZipPath) (yauzl_open P tempZipPath);
                    match opened with
                    | Some e => unzipFailed e
                    | None =>
                        (* the promise built around the entry callbacks: it
                           settles with what the zip reader drives it to,
                           and rejects when its executor throws *)
                        request (ZipEntries tempZipPath destination)
                                (yauzl_entries P tempZipPath destination)
                    end
                end
            end
      end
  end.

(** *** processValidate, glob and matchesPattern *)

Definition matchesPattern (filePath pattern : string) : Result bool :=
  let source := "^" +:+ globToRegexSource pattern +:+ "$" in
  match Regex.compile source with
  | Some regex => Ok (bool_decide (is_Some (Regex.run regex filePath)))
  | None => RegExp_test P source filePath
  end.

(** [path.relative(basePath, path.join(dir, name))] for an entry [name]
    found under [basePath]: the entry names from the root, joined by
    the separator. *)
Definition relativeTo (prefix name : string) : string :=
  if String.eqb prefix "" then name else prefix +:+ "/" +:+ name.

Fixpoint traverse (pattern prefix : string) (dir : DirListing)
    (files : list string) : Result (list string) :=
  match dir with
  | ReaddirFails e => Throw e
  | Listing entries =>
      (fix each (entries : list Dirent) (files : list string) : Result (list string) :=
         match entries with
         | [] => Ok files
         | FileEntry name :: rest =>
             let relativePath := relativeTo prefix name in
             match matchesPattern relativePath pattern with
             | Ok true => each rest (files ++ [relativePath])%list
             | Ok false => each rest files
             | Throw e => Throw e
             end
         | DirEntry name sub :: rest =>
             match traverse pattern (relativeTo prefix name) sub files with
             | Ok files' => each rest files'
             | Throw e => Throw e
             end
         end) entries files
  end.

Definition glob (pattern basePath : string) : M (Result (list string)) :=
  tree ← request (Readdir basePath) (fs_readdir P basePath);
  mret (traverse pattern "" tree []).

Definition processValidate (pattern : string) : M bool :=
  emit (Enter MValidate pattern);;
  console_log ("Validating pattern: " +:+ pattern);;
  let documentationPath := "documentation" in
  exists_ ← request (Access documentationPath) (fs_access P documentationPath);
  if negb exists_ then
    console_error ("Documentation directory '" +:+ documentationPath
                   +:+ "' does not exist");;
    mret false
  else
    found ← glob pattern documentationPath;
    match found with
    | Throw error =>
        console_error ("Validation failed: " +:+ rendered error);;
        mret false
    | Ok files =>
        if Nat.eqb (length files) 0 then
          console_error ("No files found matching pattern: " +:+ pattern);;
          mret false
        else
          console_log ("Validation successful: Found " +:+ pretty (length files)
                       +:+ " file(s) matching pattern '" +:+ pattern +:+ "'");;
          mret true
    end.

(** *** processImplement *)

Definition nonEmpty (s : option string) : bool :=
  match s with
  | Some t => negb (String.eqb t "")
  | None => false
  end.

Definition processImplement (script : string) : M bool :=
  emit (Enter MImplement script);;
  let scriptPath := path_join P ["docs"; "scripts"; script +:+ ".js"] in
  console_log ("Executing script: " +:+ scriptPath);;
  exists_ ← request (Access scriptPath) (fs_access P scriptPath);
  if negb exists_ then
    console_error ("Script file not found: " +:+ scriptPath);;
    mret false
  else
    let command := "node " +:+ scriptPath in
    ran ← request (Exec command) (child_exec P command);
    match ran with
    | ExecOk stdout stderr =>
        (if nonEmpty (Some stdout)
         then console_log ("Script output:" +:+ Str.nl +:+ stdout) else mret tt);;
        (if nonEmpty (Some stderr)
         then console_error ("Script errors:" +:+ Str.nl +:+ stderr) else mret tt);;
        console_log ("Script execution completed successfully: " +:+ scriptPath);;
        mret true
    | ExecFailed code msg stdout stderr =>
        console_error ("Script execution failed with exit code " +:+ code
                       +:+ ": " +:+ msg);;
        (if nonEmpty stdout
         then console_log ("Script output:" +:+ Str.nl +:+ default "" stdout)
         else mret tt);;
        (if nonEmpty stderr
         then console_error ("Script errors:" +:+ Str.nl +:+ default "" stderr)
         else mret tt);;
        mret false
    end.

(** *** processDirective and processWorkflow *)

Definition processDirective (directive : Directive) : M (Result bool) :=
  console_log ("Processing directive: " +:+ type directive +:+ " "
               +:+ target directive);;
  if String.eqb (type directive) "download" then
    b ← processDownload (target directive); mret (Ok b)
  else if String.eqb (type directive) "unzip" then
    processUnzip (target directive)
  else if String.eqb (type directive) "validate" then
    b ← processValidate (target directive); mret (Ok b)
  else if String.eqb (type directive) "implement" then
    b ← processImplement (target directive); mret (Ok b)
  else
    console_error ("Unknown directive type: " +:+ type directive);;
    mret (Ok false).

(** The arrow of the message stands here as the bytes of its UTF-8
    encoding. *)
Definition runFallbackFlow : M bool :=
  emit (Enter MFallback "");;
  console_log "Running fallback download→unzip flow";;
  mret true.

Definition isENOENT (error : Thrown) : bool :=
  isError error && Str.includes (message error) "ENOENT".

(** The [catch] clause of [processWorkflow]. *)
Definition workflowFailed (error : Thrown) : M bool :=
  if isENOENT error then
    console_log "implementation_plan.md not found, running fallback download→unzip flow";;
    runFallbackFlow
  else
    emit (Console LError [PStr "Error processing workflow:"; PThrown error]);;
    mret false.

(** The [for ... of] loop of [processWorkflow] with its two ways out. *)
Fixpoint runDirectives (directives : list Directive) : M bool :=
  match directives with
  | [] => mret true
  | directive :: rest =>
      outcome ← processDirective directive;
      match outcome with
      | Ok true => runDirectives rest
      | Ok false =>
          console_error ("Failed to process directive: " +:+ raw directive);;
          mret false
      | Throw error => workflowFailed error
      end
  end.

Definition processWorkflow : M bool :=
  parsed ← parseImplementationPlan;
  match parsed with
  | Throw error => workflowFailed error
  | Ok directives =>
      if Nat.eqb (length directives) 0 then
        console_log "No directives found in implementation_plan.md, running fallback download→unzip flow";;
        runFallbackFlow
      else runDirectives directives
  end.

End Manager.

(** ** The tool dispatcher of the server *)

Section Server.

Context (P : Platform).

(** A [tools/call] request.  Its [arguments], when it has any, conform
    to the input schema the server advertises: required properties are
    present, optional ones may be missing; [unknown_tool] stands for a
    request whose name is none of the five tools.  A request may also
    come without [arguments], whatever its name; the handler then holds
    [undefined] for them. *)
Inductive ToolCall : Type :=
| download_file (url : string)
| extract_archive (targetPath : option string)
| validate_patterns (pattern : string) (basePath : option string)
| execute_script (scriptName : string)
| process_workflow (planPath : option string)
| unknown_tool (name : string)
| without_arguments (name : string).

Record ToolResponse : Type := mkToolResponse {
  text : string;
  isErrorResponse : bool
}.

(** The [catch] clause around the dispatch. *)
Definition toolFailed (name : string) (error : Thrown) : ToolResponse :=
  let errorMessage := if isError error then message error else rendered error in
  mkToolResponse ("Error executing " +:+ name +:+ ": " +:+ errorMessage) true.

(** What reading [args.property] throws when [args] is [undefined]. *)
Definition undefinedRead (property : string) : Thrown :=
  mkThrown true (TypeError_undefined P property)
    ("TypeError: " +:+ TypeError_undefined P property).

Definition workflowResponse (workflowSuccess : bool) : ToolResponse :=
  mkToolResponse
    (if workflowSuccess
     then "Workflow processing completed successfully"
     else "Workflow processing failed") false.

Definition unknownTool (name : string) : ToolResponse :=
  toolFailed name (mkThrown true ("Unknown tool: " +:+ name)
                     ("Error: Unknown tool: " +:+ name)).

Definition callTool (c : ToolCall) : M P ToolResponse :=
  match c with
  | download_file url =>
      downloadSuccess ← processDownload P url;
      mret (mkToolResponse
              (if downloadSuccess : bool
               then "Successfully downloaded from " +:+ url
               else "Failed to download from " +:+ url) false)
  | extract_archive targetPath =>
      let destination := orDefault (default "" targetPath) "documentation" in
      extractSuccess ← processUnzip P destination;
      match extractSuccess with
      | Ok true =>
          mret (mkToolResponse ("Successfully extracted archive to " +:+ destination) false)
      | Ok false => mret (mkToolResponse "Failed to extract archive" false)
      | Throw error => mret (toolFailed "extract_archive" error)
      end
  | validate_patterns pattern _ =>
      validateSuccess ← processValidate P pattern;
      mret (mkToolResponse
              (if validateSuccess : bool
               then "Pattern validation successful for: " +:+ pattern
               else "Pattern validation failed for: " +:+ pattern) false)
  | execute_script scriptName =>
      scriptSuccess ← processImplement P scriptName;
      mret (mkToolResponse
              (if scriptSuccess : bool
               then "Script execution successful: " +:+ scriptName
               else "Script execution failed: " +:+ scriptName) false)
  | process_workflow _ =>
      workflowSuccess ← processWorkflow P;
      mret (workflowResponse workflowSuccess)
  | unknown_tool name => mret (unknownTool name)
  | without_arguments name =>
      (* the first read of a property of [args] throws, before the
         manager is called; [process_workflow] reads none *)
      if String.eqb name "download_file" then
        mret (toolFailed name (undefinedRead "url"))
      else if String.eqb name "extract_archive" then
        mret (toolFailed name (undefinedRead "targetPath"))
      else if String.eqb name "validate_patterns" then
        mret (toolFailed name (undefinedRead "pattern"))
      else if String.eqb name "execute_script" then
        mret (toolFailed name (undefinedRead "scriptName"))
      else if String.eqb name "process_workflow" then
        workflowSuccess ← processWorkflow P;
        mret (workflowResponse workflowSuccess)
      else mret (unknownTool name)
  end.

End Server.

(** ** A simulated platform

    A small closed world on which the definitions above can be run: one
    plan file, a table of HTTP responses, a table of directories. *)

Module Sim.

(** A reader for the part of JSON made of objects, arrays, strings
    without escapes, integers and the three literals. *)
Fixpoint skipWs (s : string) : string :=
  match s with
  | String a s' => if Str.isWhiteSpace a then skipWs s' else s
  | EmptyString => EmptyString
  end.

Definition quote : ascii := ascii_of_N 34.

(** Writes a JSON text with apostrophes in place of double quotes. *)
Definition js (text : string) : string :=
  Str.replaceAll1 "'" (String quote EmptyString) text.

Fixpoint readString (s : string) : option (string * string) :=
  match s with
  | EmptyString => None
  | String a s' =>
      if Ascii.eqb a quote then Some (EmptyString, s')
      else if Ascii.eqb a "\" then None
      else match readString s' with
           | Some (t, r) => Some (String a t, r)
           | None => None
           end
  end.

Fixpoint readDigits (s : string) (acc : Z) : Z * string :=
  match s with
  | String a s' =>
      if Str.isDigit a then readDigits s' (10 * acc + (Z.of_N (Str.code a) - 48))%Z
      else (acc, s)
  | EmptyString => (acc, s)
  end.

Definition afterWord (n : nat) (s : string) : string :=
  substring n (String.length s - n) s.

Fixpoint readValue (fuel : nat) (s : string) : option (JSON Z * string) :=
  match fuel with
  | O => None
  | S fuel' =>
      match skipWs s with
      | EmptyString => None
      | String a rest =>
          if Ascii.eqb a quote then
            match readString rest with
            | Some (t, r) => Some (JString t, r)
            | None => None
            end
          else if Ascii.eqb a "{" then
            match skipWs rest with
            | String "}" r => Some (JObject [], r)
            | _ => readMembers fuel' rest []
            end
          else if Ascii.eqb a "[" then
            match skipWs rest with
            | String "]" r => Some (JArray [], r)
            | _ => readItems fuel' rest []
            end
          else if Str.startsWith (String a rest) "null" then
            Some (JNull, afterWord 4 (String a rest))
          else if Str.startsWith (String a rest) "true" then
            Some (JBool true, afterWord 4 (String a rest))
          else if Str.startsWith (String a rest) "false" then
            Some (JBool false, afterWord 5 (String a rest))
          else if Ascii.eqb a "-" then
            match rest with
            | String d _ =>
                if Str.isDigit d
                then let '(n, r) := readDigits rest 0 in Some (JNumber (- n)%Z, r)
                else None
            | EmptyString => None
            end
          else if Str.isDigit a then
            let '(n, r) := readDigits (String a rest) 0 in Some (JNumber n, r)
          else None
      end
  end
with readMembers (fuel : nat) (s : string) (acc : list (string * JSON Z))
    : option (JSON Z * string) :=
  match fuel with
  | O => None
  | S fuel' =>
      match skipWs s with
      | String a rest =>
          if Ascii.eqb a quote then
            match readString rest with
            | Some (k, r) =>
                match skipWs r with
                | String ":" r1 =>
                    match readValue fuel' r1 with
                    | Some (v, r2) =>
                        match skipWs r2 with
                        | String "," r3 => readMembers fuel' r3 (acc ++ [(k, v)])
                        | String "}" r3 => Some (JObject (acc ++ [(k, v)]), r3)
                        | _ => None
                        end
                    | None => None
                    end
                | _ => None
                end
            | None => None
            end
          else None
      | EmptyString => None
      end
  end
with readItems (fuel : nat) (s : string) (acc : list (JSON Z))
    : option (JSON Z * string) :=
  match fuel with
  | O => None
  | S fuel' =>
      match readValue fuel' s with
      | Some (v, r) =>
          match skipWs r with
          | String "," r1 => readItems fuel' r1 (acc ++ [v])
          | String "]" r1 => Some (JArray (acc ++ [v]), r1)
          | _ => None
          end
      | None => None
      end
  end.

Definition parse (text : string) : option (JSON Z) :=
  match readValue (S (String.length text)) text with
  | Some (v, r) =>
      match skipWs r with
      | EmptyString => Some v
      | _ => None
      end
  | None => None
  end.

Record world : Type := mkWorld {
  plan : Result string;
  http : string -> AxiosOutcome;
  dirs : list (string * DirListing);
  scripts : list string
}.

Definition lookupDir (path : string) (w : world) : option DirListing :=
  snd <$> find (fun d => String.eqb d.1 path) (dirs w).

Definition exists_ (path : string) (w : world) : bool :=
  bool_decide (is_Some (lookupDir path w)) || existsb (String.eqb path) (scripts w).

Definition enoent (path : string) : Thrown :=
  let msg := "ENOENT: no such file or directory, open '" +:+ path +:+ "'" in
  mkThrown true msg ("Error: " +:+ msg).

Definition eacces (path : string) : Thrown :=
  let msg := "EACCES: permission denied, open '" +:+ path +:+ "'" in
  mkThrown true msg ("Error: " +:+ msg).

Definition platform : Platform := {|
  World := world;
  Num := Z;
  numberIsZero := Z.eqb 0;
  path_join := String.concat "/";
  fs_readFile := fun _ w => (plan w, w);
  fs_access := fun path w => (exists_ path w, w);
  fs_mkdir := fun _ w => (None, w);
  fs_writeFile := fun _ _ w => (None, w);
  fs_readdir := fun path w =>
    (default (ReaddirFails (enoent path)) (lookupDir path w), w);
  axios_get := fun url w => (http w url, w);
  Buffer_toString := fun b => b;
  JSON_parse := parse;
  yauzl_open := fun _ w => (None, w);
  yauzl_entries := fun _ _ w => (Ok true, w);
  child_exec := fun _ w => (ExecOk "" "", w);
  RegExp_test := fun _ _ =>
    Throw (mkThrown true "Invalid regular expression"
             "SyntaxError: Invalid regular expression");
  TypeError_undefined := fun property =>
    "Cannot read properties of undefined (reading '" +:+ property +:+ "')"
|}.

Definition notFound : AxiosOutcome :=
  AxiosRejected (mkAxiosError (Some (404%N, "Not Found")) true
                   "Request failed with status code 404" (Some "ERR_BAD_REQUEST")).

Definition timedOut : AxiosOutcome :=
  AxiosRejected (mkAxiosError None true "timeout of 30000ms exceeded"
                   (Some "ECONNABORTED")).

Definition expiredBody : string :=
  js "{'message':'URL expired','instructions':'contact support'}".

(** The network of the examples: one archive, one expired link, one
    slow host; everything else answers 404. *)
Definition net (url : string) : AxiosOutcome :=
  if String.eqb url "https://x/doc.zip"
  then AxiosResponse (Some "application/zip") "PK-archive-bytes"
  else if String.eqb url "https://x/expired.zip"
  then AxiosResponse (Some "application/json") expiredBody
  else if String.eqb url "https://x/slow.zip" then timedOut
  else notFound.

Definition start (w : world) : Sys platform := construct platform "/test/project" w.

End Sim.

(** * Vocabulary of the statements *)

(** ** Parsing, as the design document words it

    A line is a directive when it is an ordered-list item whose body is a
    bold verb of the closed set, compared without regard to case, followed
    by a target; the parsed sequence lists the directives of the lines in
    document order. *)

Definition directiveOfLine (line : string) : option Directive :=
  match matchListItem line with
  | Some (verb, tg) =>
      if isDirectiveType (Str.toLowerCase verb)
      then Some (mkDirective (Str.toLowerCase verb) (Str.trim tg) (Str.trim line))
      else None
  | None => None
  end.

Definition directivesInOrder (lines : list string) : list Directive :=
  omap directiveOfLine lines.

(** ** Traces, runs of the loop, the ledger *)

Section Vocabulary.

Context {P : Platform}.

(** The handler methods entered, in order. *)
Definition entered (evs : list (Event (Num P))) : list (Method * string) :=
  omap (fun e => match e with Enter m a => Some (m, a) | _ => None end) evs.

(** The platform requests made, in order. *)
Definition requests (evs : list (Event (Num P))) : list IoOp :=
  omap (fun e => match e with IO op => Some op | _ => None end) evs.

(** The handler that the dispatch of [processDirective] selects. *)
Definition handlerCall (d : Directive) : list (Method * string) :=
  if String.eqb (type d) "download" then [(MDownload, target d)]
  else if String.eqb (type d) "unzip" then [(MUnzip, target d)]
  else if String.eqb (type d) "validate" then [(MValidate, target d)]
  else if String.eqb (type d) "implement" then [(MImplement, target d)]
  else [].

(** The state reached when the handlers of the directives have run one
    after the other, each from the state its predecessor left. *)
Fixpoint stateAfter (ds : list Directive) (s : Sys P) : Sys P :=
  match ds with
  | [] => s
  | d :: rest => stateAfter rest (processDirective P d s).2
  end.

(** Whether each of these handlers, run in that way, reports success. *)
Fixpoint allSucceed (ds : list Directive) (s : Sys P) : bool :=
  match ds with
  | [] => true
  | d :: rest =>
      match (processDirective P d s).1 with
      | Ok true => allSucceed rest (processDirective P d s).2
      | _ => false
      end
  end.

(** The error with which the first rejected handler leaves the loop,
    when the loop gets that far. *)
Fixpoint rejection (ds : list Directive) (s : Sys P) : option Thrown :=
  match ds with
  | [] => None
  | d :: rest =>
      match processDirective P d s with
      | (Ok true, s') => rejection rest s'
      | (Ok false, _) => None
      | (Throw e, _) => Some e
      end
  end.

(** A relation between the state before and after holds along a
    computation. *)
Definition steps {A} (R : Sys P -> Sys P -> Prop) (m : M P A) : Prop :=
  forall s, R s (m s).2.

(** Nothing but console output and platform requests was added to the
    trace. *)
Definition quietly (s s' : Sys P) : Prop :=
  exists evs, trace P s' = trace P s ++ evs /\ entered evs = [].

(** A handler leaves its entry in the trace, once, before anything else
    it does. *)
Definition entersOnce {A} (m : M P A) (method : Method) (arg : string) : Prop :=
  forall s, exists evs,
    trace P (m s).2 = trace P s ++ Enter method arg :: evs /\ entered evs = [].

(** The ledger field points to an allocated array. *)
Definition ledgerAllocated (s : Sys P) : Prop :=
  this_downloadHistory P s ∈ dom (arrays P s).

(** Every array that existed is untouched, and so is the ledger field. *)
Definition framed (s s' : Sys P) : Prop :=
  this_downloadHistory P s' = this_downloadHistory P s /\
  forall l, l ∈ dom (arrays P s) -> arrays P s' !! l = arrays P s !! l.

(** *** Sequences of fetch attempts *)

Fixpoint downloadAll (urls : list string) : M P (list bool) :=
  match urls with
  | [] => mret []
  | u :: rest =>
      b ← processDownload P u;
      bs ← downloadAll rest;
      mret (b :: bs)
  end.

(** What the HTTP client answered to each attempt of the sequence. *)
Fixpoint responses (urls : list string) (s : Sys P) : list AxiosOutcome :=
  match urls with
  | [] => []
  | u :: rest =>
      (axios_get P u (world P s)).1 :: responses rest (processDownload P u s).2
  end.

Definition answered (o : AxiosOutcome) : bool :=
  match o with
  | AxiosResponse _ _ => true
  | _ => false
  end.

(** A rejection that carries an HTTP status: the non-200 case of the
    failure taxonomy. *)
Definition statusRejected (o : AxiosOutcome) : bool :=
  match o with
  | AxiosRejected e => bool_decide (is_Some (ax_response e))
  | _ => false
  end.

(** An attempt that is not a generic network or timeout failure, as the
    failure taxonomy words it. *)
Definition notNetworkFailure (o : AxiosOutcome) : bool :=
  answered o || statusRejected o.

(** *** Preconditions of extraction *)

Inductive Violation : Type :=
| EmptyLedger
| PayloadAbsent
| NotAnArchive (mediaType : string).

Definition violation (ledger : list (DownloadResult (Num P))) : option Violation :=
  match last ledger with
  | None => Some EmptyLedger
  | Some latest =>
      match data latest with
      | None => Some PayloadAbsent
      | Some _ =>
          if indicatesArchive (contentType latest) then None
          else Some (NotAnArchive (contentType latest))
      end
  end.

Definition diagnostic (v : Violation) : string :=
  match v with
  | EmptyLedger => "No downloads available to unzip"
  | PayloadAbsent => "No data available in latest download"
  | NotAnArchive mediaType => "Content type " +:+ mediaType +:+ " is not a zip file"
  end.

(** *** What a caller can do to an array it holds *)

Definition mutateArray (l : positive)
    (f : list (DownloadResult (Num P)) -> list (DownloadResult (Num P))) : M P unit :=
  xs ← readArray P l; writeArray P l (f xs).

Fixpoint mutateAll (l : positive)
    (fs : list (list (DownloadResult (Num P)) -> list (DownloadResult (Num P))))
    : M P unit :=
  match fs with
  | [] => mret tt
  | f :: rest => mutateArray l f;; mutateAll l rest
  end.

(** *** The states a manager can be in *)

(** The public methods of the manager. *)
Inductive Call : Type :=
| CallProcessWorkflow
| CallParseImplementationPlan
| CallProcessDirective (d : Directive)
| CallProcessDownload (url : string)
| CallProcessUnzip (targetPath : string)
| CallProcessValidate (pattern : string)
| CallProcessImplement (script : string)
| CallRunFallbackFlow
| CallGetDownloadHistory
| CallClearDownloadHistory.

Definition perform (c : Call) (s : Sys P) : Sys P :=
  match c with
  | CallProcessWorkflow => (processWorkflow P s).2
  | CallParseImplementationPlan => (parseImplementationPlan P s).2
  | CallProcessDirective d => (processDirective P d s).2
  | CallProcessDownload url => (processDownload P url s).2
  | CallProcessUnzip targetPath => (processUnzip P targetPath s).2
  | CallProcessValidate pattern => (processValidate P pattern s).2
  | CallProcessImplement script => (processImplement P script s).2
  | CallRunFallbackFlow => (runFallbackFlow P s).2
  | CallGetDownloadHistory => (getDownloadHistory P s).2
  | CallClearDownloadHistory => (clearDownloadHistory P s).2
  end.

(** The arrays that [getDownloadHistory] hands out hold the ledger's own
    record objects, so a client that writes to a field of a record writes
    to the record of the ledger, and of every array that holds it.  The
    arrays keep their lengths; [g] says what becomes of the record at
    each place of each array. *)
Definition writeRecords
    (g : positive -> nat -> DownloadResult (Num P) -> DownloadResult (Num P))
    (s : Sys P) : Sys P :=
  mkSys P (world P s) (map_imap (fun l xs => Some (imap (g l) xs)) (arrays P s))
    (this_implementationPlanPath P s) (this_downloadHistory P s) (trace P s).

(** A manager starts from its constructor; its client calls its methods,
    changes, in place, arrays other than the ledger, which no method
    hands out, and writes to the fields of the records it can reach. *)
Inductive reachable : Sys P -> Prop :=
| reachable_new projectRoot w : reachable (construct P projectRoot w)
| reachable_call c s : reachable s -> reachable (perform c s)
| reachable_mutate l f s :
    reachable s -> l <> this_downloadHistory P s ->
    reachable (mutateArray l f s).2
| reachable_write g s : reachable s -> reachable (writeRecords g s).

(** An allocated ledger stays allocated. *)
Definition keepsLedger (s s' : Sys P) : Prop :=
  ledgerAllocated s -> ledgerAllocated s'.

End Vocabulary.

(** ** Worlds of the examples *)

Module Scenario.

(** A plan whose second fetch is answered 404. *)
Definition failingPlan : string :=
  "1. **download** https://x/doc.zip" +:+ Str.nl +:+
  "2. **download** https://x/missing.zip" +:+ Str.nl +:+
  "3. **unzip** out".

Definition failing : Sim.world := Sim.mkWorld (Ok failingPlan) Sim.net [] [].

Definition planPath : string := "/test/project/docs/implementation_plan.md".

(** The plan file exists but may not be read. *)
Definition locked : Sim.world :=
  Sim.mkWorld (Throw (Sim.eacces planPath)) Sim.net [] [].

(** The plan file is missing. *)
Definition missing : Sim.world :=
  Sim.mkWorld (Throw (Sim.enoent planPath)) Sim.net [] [].

(** Extracted files lie under [out], and there is no [documentation]
    directory. *)
Definition extractedToOut : Sim.world :=
  Sim.mkWorld (Throw (Sim.enoent planPath)) Sim.net
    [("out", Listing [FileEntry "file.md"])] [].

End Scenario.

(** * Further vocabulary *)

(** ** Glob patterns

    A pattern is read as a sequence of literal characters, stars and
    question marks; [Matches] says which paths such a sequence stands
    for when a star is a stretch without separator and a question mark
    one character that is not the separator. *)

Module Glob.

Inductive Tok : Type :=
| TLit (a : ascii)
| TStar
| TQuest.

Definition renderTok (t : Tok) : string :=
  match t with
  | TLit a => String a EmptyString
  | TStar => "*"
  | TQuest => "?"
  end.

Definition charOf (t : Tok) : ascii :=
  match t with
  | TLit a => a
  | TStar => "*"
  | TQuest => "?"
  end.

(** The text of the pattern. *)
Fixpoint render (ts : list Tok) : string :=
  match ts with
  | [] => EmptyString
  | t :: rest => renderTok t +:+ render rest
  end.

(** A character that stands for itself: the dot, and everything that is
    not a metacharacter of regular expressions. *)
Definition literal (a : ascii) : bool :=
  negb (Regex.isSyntaxChar a) || Ascii.eqb a ".".

Definition startsWithStar (ts : list Tok) : bool :=
  match ts with
  | TStar :: _ => true
  | _ => false
  end.

Definition literalTok (t : Tok) : bool :=
  match t with
  | TLit a => literal a
  | _ => true
  end.

(** Literal characters are literal. *)
Definition lits (ts : list Tok) : bool := forallb literalTok ts.

(** Literal characters are literal, and no star follows a star. *)
Fixpoint wellFormed (ts : list Tok) : bool :=
  match ts with
  | [] => true
  | TLit a :: rest => literal a && wellFormed rest
  | TStar :: rest => negb (startsWithStar rest) && wellFormed rest
  | TQuest :: rest => wellFormed rest
  end.

Definition sep : ascii := "/".

(** No separator occurs in [s]. *)
Fixpoint flat (s : string) : bool :=
  match s with
  | EmptyString => true
  | String a s' => negb (Ascii.eqb a sep) && flat s'
  end.

Inductive Matches : list Tok -> string -> Prop :=
| matches_nil : Matches [] EmptyString
| matches_lit a ts s :
    Matches ts s -> Matches (TLit a :: ts) (String a s)
| matches_quest a ts s :
    Ascii.eqb a sep = false -> Matches ts s -> Matches (TQuest :: ts) (String a s)
| matches_star stem ts s :
    flat stem = true -> Matches ts s -> Matches (TStar :: ts) (stem +:+ s).

(** The regular expression that stands for a well-formed pattern. *)
Definition noSep : Regex.CharSet := Regex.CsClass true [(sep, sep)].

Definition node (t : Tok) : Regex.Node :=
  match t with
  | TLit a => Regex.NChar (Regex.CsChar a)
  | TStar => Regex.NStar noSep
  | TQuest => Regex.NChar noSep
  end.

(** What the four substitutions of [matchesPattern] make of one token. *)
Definition regexOfTok (t : Tok) : string :=
  match t with
  | TLit a => if Ascii.eqb a "." then "\." else String a EmptyString
  | TStar => "[^\/]*"
  | TQuest => "[^\/]"
  end.

Fixpoint regexSource (ts : list Tok) : string :=
  match ts with
  | [] => EmptyString
  | t :: rest => regexOfTok t +:+ regexSource rest
  end.

(** What the first substitution does to the tokens: two stars in a row,
    taken from the left, become a dot and a star. *)
Fixpoint desugar (ts : list Tok) : list Tok :=
  match ts with
  | [] => []
  | t :: rest =>
      match t, rest with
      | TStar, TStar :: rest' => TLit "." :: TStar :: desugar rest'
      | _, _ => t :: desugar rest
      end
  end.

(** The tokens of a pattern text. *)
Definition tokOf (a : ascii) : Tok :=
  if Ascii.eqb a "*" then TStar
  else if Ascii.eqb a "?" then TQuest
  else TLit a.

Fixpoint tokens (s : string) : list Tok :=
  match s with
  | EmptyString => []
  | String a s' => tokOf a :: tokens s'
  end.

(** A pattern text made of literal characters, stars and question
    marks. *)
Fixpoint plain (s : string) : bool :=
  match s with
  | EmptyString => true
  | String a s' =>
      (literal a || Ascii.eqb a "*" || Ascii.eqb a "?") && plain s'
  end.

(** A quantifier does not come next. *)
Definition noQuantifier (s : string) : bool :=
  match s with
  | String a _ => negb (Ascii.eqb a "*") && negb (Ascii.eqb a "+")
  | EmptyString => true
  end.

End Glob.


(** ** Directory trees *)

(** The files of a tree, named from its root, in the order in which a
    depth-first walk along the listings meets them. *)
Fixpoint filesUnder (prefix : string) (dir : DirListing) : list string :=
  match dir with
  | ReaddirFails _ => []
  | Listing entries =>
      (fix each (entries : list Dirent) : list string :=
         match entries with
         | [] => []
         | FileEntry name :: rest => relativeTo prefix name :: each rest
         | DirEntry name sub :: rest =>
             (filesUnder (relativeTo prefix name) sub ++ each rest)%list
         end) entries
  end.

(** The error of the first directory, in that order, that cannot be
    listed. *)
Fixpoint firstFailure (dir : DirListing) : option Thrown :=
  match dir with
  | ReaddirFails e => Some e
  | Listing entries =>
      (fix each (entries : list Dirent) : option Thrown :=
         match entries with
         | [] => None
         | FileEntry _ :: rest => each rest
         | DirEntry _ sub :: rest =>
             match firstFailure sub with
             | Some e => Some e
             | None => each rest
             end
         end) entries
  end.

Module Docs.

Definition tree : DirListing :=
  Listing [FileEntry "README.md";
           DirEntry "api" (Listing [FileEntry "index.md"; FileEntry "notes.txt"]);
           FileEntry "guide.md"].

(** A project with a [documentation] directory and no plan file. *)
Definition documented : Sim.world :=
  Sim.mkWorld (Throw (Sim.enoent Scenario.planPath)) Sim.net
    [("documentation", tree)] [].

End Docs.

(** ** Ledger records *)

Section Records.

Context {P : Platform}.

(** A record holds either the payload of an answered request, or the
    mark of an expired link with the instructions that came with it. *)
Definition consistent (r : DownloadResult (Num P)) : Prop :=
  match data r with
  | Some _ => isExpired r = false /\ expiryInstructions r = None
  | None => isExpired r = true
  end.

(** The ledger stays allocated and gains consistent records only. *)
Definition extends (s s' : Sys P) : Prop :=
  ledgerAllocated s ->
  ledgerAllocated s' /\
  exists rs, history P s' = history P s ++ rs /\ Forall consistent rs.

(** The states of a manager whose client calls its methods and changes
    the arrays it was handed, and writes to no field of a record. *)
Inductive driven : Sys P -> Prop :=
| driven_new projectRoot w : driven (construct P projectRoot w)
| driven_call c s : driven s -> driven (perform c s)
| driven_mutate l f s :
    driven s -> l <> this_downloadHistory P s ->
    driven (mutateArray l f s).2.

(** [record.data = null], written to every record in reach. *)
Definition dropPayloads : positive -> nat -> DownloadResult (Num P) -> DownloadResult (Num P) :=
  fun _ _ r =>
    mkDownloadResult (url r) None (contentType r) (isExpired r) (expiryInstructions r).

End Records.

(** ** Error output *)

(** What a run wrote with [console.error], in order. *)
Definition errors {Num : Type} (evs : list (Event Num)) : list (list (Printed Num)) :=
  omap (fun e => match e with Console LError args => Some args | _ => None end) evs.

(** ** An extraction that goes ahead *)

Section GoingAhead.

Context {P : Platform}.

Definition unzipFailure (e : Thrown) : list (Printed (Num P)) :=
  [PStr ("Unzip failed: " +:+ rendered e)].

(** What an extraction of [bytes] to [destination] asks of the platform
    in world [w], and what it returns: the destination is created, the
    bytes are written to [temp_download.zip] under it, that file is
    opened, its entries are read; the first of the first three steps that
    fails ends the extraction with [false] and one line of error output,
    and when none fails the result is what reading the entries gives. *)
Definition goesAhead (destination : string) (bytes : Buffer) (w : World P)
    (evs : list (Event (Num P))) (result : Result bool) : Prop :=
  let tempZipPath := path_join P [destination; "temp_download.zip"] in
  let made := fs_mkdir P destination w in
  let written := fs_writeFile P tempZipPath bytes made.2 in
  let opened := yauzl_open P tempZipPath written.2 in
  let read := yauzl_entries P tempZipPath destination opened.2 in
  match made.1 with
  | Some e =>
      requests evs = [Mkdir destination] /\
      errors evs = [unzipFailure e] /\ result = Ok false
  | None =>
      match written.1 with
      | Some e =>
          requests evs = [Mkdir destination; WriteFile tempZipPath bytes] /\
          errors evs = [unzipFailure e] /\ result = Ok false
      | None =>
          match opened.1 with
          | Some e =>
              requests evs = [Mkdir destination; WriteFile tempZipPath bytes;
                              ZipOpen tempZipPath] /\
              errors evs = [unzipFailure e] /\ result = Ok false
          | None =>
              requests evs = [Mkdir destination; WriteFile tempZipPath bytes;
                              ZipOpen tempZipPath;
                              ZipEntries tempZipPath destination] /\
              result = read.1
          end
      end
  end.

End GoingAhead.

(** ** Arrays handed out *)

Section Snapshots.

Context {P : Platform}.

(** The ledger stays allocated, no array disappears, the ledger field
    moves, if at all, to an array that did not exist, and every array
    other than the ledger keeps its elements. *)
Definition preserves (s s' : Sys P) : Prop :=
  ledgerAllocated s ->
  ledgerAllocated s' /\
  dom (arrays P s) ⊆ dom (arrays P s') /\
  (this_downloadHistory P s' = this_downloadHistory P s \/
   this_downloadHistory P s' ∉ dom (arrays P s)) /\
  forall l, l ∈ dom (arrays P s) -> l <> this_downloadHistory P s ->
            arrays P s' !! l = arrays P s !! l.

(** Method calls, one after the other. *)
Definition performAll (calls : list Call) (s : Sys P) : Sys P :=
  fold_left (fun s c => perform c s) calls s.

End Snapshots.

(** ** Lines of a plan *)

Definition cr : ascii := ascii_of_N 13.

Fixpoint lastChar (s : string) : option ascii :=
  match s with
  | EmptyString => None
  | String a s' =>
      match lastChar s' with
      | Some b => Some b
      | None => Some a
      end
  end.

Definition startsWithDigit (line : string) : bool :=
  match line with
  | String a _ => Str.isDigit a
  | EmptyString => false
  end.

(** A line that does not open with a digit, or that ends in a carriage
    return. *)
Definition unlisted (line : string) : bool :=
  negb (startsWithDigit line) || bool_decide (lastChar line = Some cr).

Module Plans.

Definition crlf : string := String cr Str.nl.

(** A plan saved with carriage returns before its line feeds. *)
Definition windows : string :=
  "# Plan" +:+ crlf +:+
  "1. **download** https://x/doc.zip" +:+ crlf +:+
  "2. **unzip** out" +:+ crlf.

End Plans.

Module Fetching.

(** A plan that fetches an archive and extracts it. *)
Definition plan : string :=
  "1. **download** https://x/doc.zip" +:+ Str.nl +:+
  "2. **unzip** out".

Definition world : Sim.world := Sim.mkWorld (Ok plan) Sim.net [] [].

End Fetching.

(** ** Plans, line by line

    A plan as its author writes it: numbered items that name a verb in
    bold and a target, between lines of other text. *)

Module Plan.

Definition isLetter (a : ascii) : bool :=
  let c := Str.code a in
  ((65 <=? c)%N && (c <=? 90)%N) || ((97 <=? c)%N && (c <=? 122)%N).

(** White space that does not end a line. *)
Definition isBlank (a : ascii) : bool :=
  Str.isWhiteSpace a && negb (Str.code a =? 10)%N.

Definition inLine (a : ascii) : bool := negb (Str.code a =? 10)%N.

Fixpoint all (p : ascii -> bool) (s : string) : bool :=
  match s with
  | EmptyString => true
  | String a s' => p a && all p s'
  end.

(** A string of one character or more, all of one kind. *)
Definition some (p : ascii -> bool) (s : string) : bool :=
  match s with
  | EmptyString => false
  | String _ _ => all p s
  end.

(** No white space at either end. *)
Definition trimmed (s : string) : bool :=
  match s with
  | String a _ => negb (Str.isWhiteSpace a)
  | EmptyString => true
  end &&
  match lastChar s with
  | Some x => negb (Str.isWhiteSpace x)
  | None => true
  end.

Inductive Line : Type :=
| Item (number gap verb gap' target : string)
| Prose (text : string).

Definition text (l : Line) : string :=
  match l with
  | Item number gap verb gap' target =>
      number +:+ "." +:+ gap +:+ "**" +:+ verb +:+ "**" +:+ gap' +:+ target
  | Prose t => t
  end.

(** An item is a number, a dot, a gap, a word between doubled stars, a
    gap and a target that runs to the end of the line; prose is a line
    that does not open with a digit (or that ends in a carriage
    return). *)
Definition wellFormed (l : Line) : bool :=
  match l with
  | Item number gap verb gap' target =>
      some Str.isDigit number && some isBlank gap && some isLetter verb &&
      some isBlank gap' &&
      some (fun a => negb (Str.isLineTerminator a)) target && trimmed target
  | Prose t => all inLine t && unlisted t
  end.

Definition verbs : list string := ["download"; "unzip"; "validate"; "implement"].

(** The directive an item stands for, when its verb is one of the four,
    in whatever case it is written. *)
Definition directive (l : Line) : option Directive :=
  match l with
  | Item _ _ verb _ target =>
      let kind := Str.toLowerCase verb in
      if bool_decide (kind ∈ verbs)
      then Some (mkDirective kind target (text l))
      else None
  | Prose _ => None
  end.


Definition directives (ls : list Line) : list Directive := omap directive ls.


End Plan.

(** * Properties *)

(** ** Text lemmas *)

Lemma append_cons (x : ascii) (a b : string) : String x a +:+ b = String x (a +:+ b).
Proof. reflexivity. Qed.

Lemma append_nil_l (b : string) : EmptyString +:+ b = b.
Proof. reflexivity. Qed.

Lemma string_app_assoc (a b c : string) : (a +:+ b) +:+ c = a +:+ (b +:+ c).
Proof.
  induction a as [|x a IH]; [done |].
  by rewrite !append_cons, IH.
Qed.

Lemma substring_all (s : string) : substring 0 (String.length s) s = s.
Proof. induction s as [|a s IH]; simpl; [done | by rewrite IH]. Qed.

Lemma digit_not_white (a : ascii) : Str.isDigit a = true -> Str.isWhiteSpace a = false.
Proof.
  unfold Str.isDigit, Str.isWhiteSpace.
  intros H. apply andb_true_iff in H as [H1 H2].
  apply N.leb_le in H1. apply N.leb_le in H2.
  repeat (apply orb_false_iff; split).
  - apply andb_false_iff. right. apply N.leb_gt. lia.
  - apply N.eqb_neq. lia.
  - apply N.eqb_neq. lia.
Qed.

Lemma trimEnd_split (s : string) :
  exists w, s = Str.trimEnd s +:+ w /\ Str.allWhite w = true.
Proof.
  induction s as [|a s (w & Hs & Hw)]; simpl.
  - by exists EmptyString.
  - destruct (Str.trimEnd s) as [|b r] eqn:E.
    + rewrite append_nil_l in Hs. subst w.
      destruct (Str.isWhiteSpace a) eqn:Ha.
      * exists (String a s). split; [done |].
        unfold Str.allWhite in *. simpl. by rewrite Ha.
      * by exists s.
    + exists w. split; [| done]. by rewrite append_cons, <- Hs.
Qed.

Lemma trim_digit_head (a : ascii) (s : string) :
  Str.isDigit a = true -> Str.trim (String a s) = Str.trimEnd (String a s).
Proof.
  intros H. unfold Str.trim. simpl Str.trimStart.
  by rewrite (digit_not_white a H).
Qed.



(** ** The matcher, one node at a time *)

Lemma exec_star_eq c r s cur caps :
  Regex.exec (Regex.NStar c :: r) s cur caps =
  match s with
  | String a s' =>
      if Regex.accepts c a then
        match Regex.exec (Regex.NStar c :: r) s' cur caps with
        | Some out => Some out
        | None => Regex.exec r s cur caps
        end
      else Regex.exec r s cur caps
  | EmptyString => Regex.exec r s cur caps
  end.
Proof. by destruct s. Qed.

(** A starred node gives up a front part of the input and leaves the
    rest to what follows it. *)
Lemma exec_star_inv c r s cur caps out :
  Regex.exec (Regex.NStar c :: r) s cur caps = Some out ->
  exists front rest, s = front +:+ rest /\ Regex.exec r rest cur caps = Some out.
Proof.
  induction s as [|a s IH]; rewrite exec_star_eq; intros H.
  - by exists EmptyString, EmptyString.
  - destruct (Regex.accepts c a);
      [destruct (Regex.exec (Regex.NStar c :: r) s cur caps) eqn:E |].
    + destruct (IH H) as (front & rest & -> & Hr).
      by exists (String a front), rest.
    + by exists EmptyString, (String a s).
    + by exists EmptyString, (String a s).
Qed.

(** A pattern that ends in a group [(c+)] captures, as its last group,
    everything from where the group opens to the end of the input. *)
Lemma exec_closing_group c s cur caps out :
  Regex.exec [Regex.NOpen; Regex.NChar c; Regex.NStar c; Regex.NClose] s cur caps
    = Some out ->
  out = caps ++ [s].
Proof.
  simpl. destruct s as [|a s]; [done |].
  destruct (Regex.accepts c a); [| done].
  change ((fix star (s0 : string) : option (list string) := _) s)
    with (Regex.exec [Regex.NStar c; Regex.NClose] s (Some (String a s)) caps).
  intros H. apply exec_star_inv in H as (front & rest & _ & H).
  simpl in H. destruct rest; [| done].
  injection H as <-. by rewrite substring_all.
Qed.

Lemma exec_last_group_is_tail pre c :
  forall s cur caps out,
  Regex.exec (pre ++ [Regex.NOpen; Regex.NChar c; Regex.NStar c; Regex.NClose])
    s cur caps = Some out ->
  exists front tail, s = front +:+ tail /\ last out = Some tail.
Proof.
  induction pre as [|n pre IH]; intros s cur caps out H.
  - apply exec_closing_group in H as ->.
    exists EmptyString, s. by rewrite last_snoc.
  - destruct n; rewrite <- app_comm_cons in H.
    + simpl in H. destruct s as [|a s]; [done |].
      destruct (Regex.accepts c0 a); [| done].
      destruct (IH _ _ _ _ H) as (front & tail & -> & Hl).
      by exists (String a front), tail.
    + apply exec_star_inv in H as (f1 & rest & -> & H).
      destruct (IH _ _ _ _ H) as (front & tail & -> & Hl).
      exists (f1 +:+ front), tail. by rewrite string_app_assoc.
    + simpl in H. eauto.
    + simpl in H. destruct cur; [eauto | done].
Qed.

Lemma listItemRegex_nodes :
  listItemRegex =
  Some ([Regex.NChar Regex.CsDigit; Regex.NStar Regex.CsDigit;
         Regex.NChar (Regex.CsChar "."); Regex.NChar Regex.CsSpace;
         Regex.NStar Regex.CsSpace; Regex.NChar (Regex.CsChar "*");
         Regex.NChar (Regex.CsChar "*"); Regex.NOpen;
         Regex.NChar (Regex.CsClass false [("a", "z"); ("A", "Z")]%char);
         Regex.NStar (Regex.CsClass false [("a", "z"); ("A", "Z")]%char);
         Regex.NClose; Regex.NChar (Regex.CsChar "*");
         Regex.NChar (Regex.CsChar "*"); Regex.NChar Regex.CsSpace;
         Regex.NStar Regex.CsSpace]
        ++ [Regex.NOpen; Regex.NChar Regex.CsAny; Regex.NStar Regex.CsAny;
            Regex.NClose]).
Proof. reflexivity. Qed.

(** What a line that matches the list-item pattern looks like: it opens
    with a digit and its second group runs to the end of the line. *)
Lemma matchListItem_shape line ty tg :
  matchListItem line = Some (ty, tg) ->
  (exists a rest, line = String a rest /\ Str.isDigit a = true) /\
  (exists front, line = front +:+ tg).
Proof.
  unfold matchListItem. rewrite listItemRegex_nodes.
  destruct (Regex.run _ line) as [out|] eqn:E; [| done].
  intros H. split.
  - unfold Regex.run in E. simpl in E.
    destruct line as [|a rest]; [done |].
    destruct (Str.isDigit a) eqn:D; [eauto | done].
  - apply exec_last_group_is_tail in E as (front & tail & -> & Hl).
    exists front.
    destruct out as [|x [|y [|z out]]]; try done.
    simpl in Hl. by simplify_eq.
Qed.

(** ** The glob matcher *)

(** C1 (code defect).  On the correctness table of the glob matcher the
    first four rows hold: [*.md] accepts [file.md] and rejects [file.txt],
    [docs/*.md] accepts [docs/file.md] and rejects [other/file.md].  The
    two rows for [**/*.md] fail: the star that the first substitution
    writes is rewritten by the second one, the pattern becomes
    [\.[^\/]*/[^\/]*\.md], and both [file.md] and [docs/sub/file.md] are
    rejected. *)
Theorem matchesPattern_table (P : Platform) :
  matchesPattern P "file.md" "*.md" = Ok true /\
  matchesPattern P "file.txt" "*.md" = Ok false /\
  matchesPattern P "docs/file.md" "docs/*.md" = Ok true /\
  matchesPattern P "other/file.md" "docs/*.md" = Ok false /\
  globToRegexSource "**/*.md" = "\.[^\/]*/[^\/]*\.md" /\
  matchesPattern P "file.md" "**/*.md" = Ok false /\
  matchesPattern P "docs/sub/file.md" "**/*.md" = Ok false.
Proof. repeat split; reflexivity. Qed.

(** ** The directive parser *)

Lemma parseLine_directiveOfLine acc line :
  parseLine acc line = acc ++ option_list (directiveOfLine line).
Proof.
  unfold parseLine, directiveOfLine.
  destruct (matchListItem line) as [[verb tg]|]; simpl; [| by rewrite app_nil_r].
  destruct (isDirectiveType _); simpl; [done | by rewrite app_nil_r].
Qed.

Lemma fold_parseLine lines : forall acc,
  fold_left parseLine lines acc = acc ++ directivesInOrder lines.
Proof.
  unfold directivesInOrder.
  induction lines as [|l lines IH]; intros acc; simpl.
  - by rewrite app_nil_r.
  - rewrite IH, parseLine_directiveOfLine, <- app_assoc. f_equal.
    by destruct (directiveOfLine l).
Qed.

(** C9 (as amended).  For every plan line recognised as a directive, the
    target is the second group of the match, which runs to the end of the
    line, with surrounding whitespace trimmed; the raw field is the line
    with surrounding whitespace trimmed, that is, the line without its
    trailing whitespace. *)
Theorem directive_fields_trimmed (line : string) (d : Directive) :
  parseLine [] line = [d] ->
  exists verb tg front trailing,
    matchListItem line = Some (verb, tg) /\
    line = front +:+ tg /\
    target d = Str.trim tg /\
    raw d = Str.trim line /\
    line = raw d +:+ trailing /\
    Str.allWhite trailing = true.
Proof.
  unfold parseLine.
  destruct (matchListItem line) as [[verb tg]|] eqn:E; [| done].
  destruct (isDirectiveType _); [| done].
  intros H. simpl in H. simplify_eq. simpl.
  destruct (matchListItem_shape _ _ _ E) as [(a & rest & -> & D) (front & Hf)].
  destruct (trimEnd_split (String a rest)) as (w & Hw & Hall).
  exists verb, tg, front, w. rewrite (trim_digit_head a rest D).
  by repeat split.
Qed.

Lemma directive_fields_trimmed_witness :
  exists verb tg front trailing,
    matchListItem "7. **Unzip**   out dir  " = Some (verb, tg) /\
    "7. **Unzip**   out dir  " = front +:+ tg /\
    "out dir" = Str.trim tg /\
    "7. **Unzip**   out dir" = Str.trim "7. **Unzip**   out dir  " /\
    "7. **Unzip**   out dir  " = "7. **Unzip**   out dir" +:+ trailing /\
    Str.allWhite trailing = true.
Proof.
  apply (directive_fields_trimmed "7. **Unzip**   out dir  "
           (mkDirective "unzip" "out dir" "7. **Unzip**   out dir")).
  reflexivity.
Defined.

(** C9 (as stated) fails: a recognised line that ends in a space is kept
    without that space. *)
Lemma raw_drops_trailing_space :
  parseDirectives "1. **download** https://x/doc.zip " =
    [mkDirective "download" "https://x/doc.zip" "1. **download** https://x/doc.zip"] /\
  raw (mkDirective "download" "https://x/doc.zip" "1. **download** https://x/doc.zip")
    <> "1. **download** https://x/doc.zip ".
Proof. split; [reflexivity | discriminate]. Qed.

(** ** Relations that hold along a computation *)

Section Steps.

Context {P : Platform}.
Variable R : Sys P -> Sys P -> Prop.
Hypothesis R_refl : forall s, R s s.
Hypothesis R_trans : forall a b c, R a b -> R b c -> R a c.
Hypothesis R_console : forall lvl args, steps R (emit P (Console lvl args)).
Hypothesis R_request : forall A op f, steps R (@request P A op f).
Hypothesis R_copy : steps R (getDownloadHistory P).

Lemma steps_ret {A} (a : A) : steps R (mret a : M P A).
Proof using R_refl. intros s. apply R_refl. Qed.

Lemma steps_bind {A B} (m : M P A) (k : A -> M P B) :
  steps R m -> (forall a, steps R (k a)) -> steps R (m ≫= k).
Proof using R_trans.
  intros Hm Hk s. unfold mbind, M_bind.
  specialize (Hm s). destruct (m s) as [a s1]. simpl in Hm.
  eapply R_trans; [exact Hm | apply Hk].
Qed.

Lemma steps_readArray l : steps R (readArray P l).
Proof using R_refl. intros s. apply R_refl. Qed.

Lemma steps_get_path :
  steps R (fun s : Sys P => (this_implementationPlanPath P s, s)).
Proof using R_refl. intros s. apply R_refl. Qed.

Lemma steps_console_log msg : steps R (console_log P msg).
Proof using R_console. apply R_console. Qed.

Lemma steps_console_error msg : steps R (console_error P msg).
Proof using R_console. apply R_console. Qed.

Ltac step :=
  first
    [ apply steps_ret
    | apply steps_console_log
    | apply steps_console_error
    | apply R_console
    | apply R_request
    | apply R_copy
    | apply steps_readArray
    | apply steps_get_path
    | apply steps_bind; [| intros ?]
    | case_match ].

Lemma steps_parseImplementationPlan : steps R (parseImplementationPlan P).
Proof using R_refl R_trans R_request.
  unfold parseImplementationPlan. repeat step.
Qed.

Lemma steps_unzip_body targetPath s :
  R (emit P (Enter MUnzip targetPath) s).2 (processUnzip P targetPath s).2.
Proof using R_refl R_trans R_console R_request R_copy.
  unfold processUnzip. unfold mbind at 1. unfold M_bind at 1.
  simpl. match goal with |- R ?s1 (?m ?s1).2 =>
    revert s; cut (steps R m); [intros H s; apply H |] end.
  unfold unzipFailed. repeat step.
Qed.

Lemma steps_validate_body pattern s :
  R (emit P (Enter MValidate pattern) s).2 (processValidate P pattern s).2.
Proof using R_refl R_trans R_console R_request.
  unfold processValidate. unfold mbind at 1. unfold M_bind at 1.
  simpl. match goal with |- R ?s1 (?m ?s1).2 =>
    revert s; cut (steps R m); [intros H s; apply H |] end.
  unfold glob. repeat step.
Qed.

Lemma steps_implement_body script s :
  R (emit P (Enter MImplement script) s).2 (processImplement P script s).2.
Proof using R_refl R_trans R_console R_request.
  unfold processImplement. unfold mbind at 1. unfold M_bind at 1.
  simpl. match goal with |- R ?s1 (?m ?s1).2 =>
    revert s; cut (steps R m); [intros H s; apply H |] end.
  repeat step.
Qed.

Hypothesis R_push : forall r, steps R (pushDownload P r).

Lemma steps_download_body url s :
  R (emit P (Enter MDownload url) s).2 (processDownload P url s).2.
Proof using R_refl R_trans R_console R_request R_push.
  unfold processDownload. unfold mbind at 1. unfold M_bind at 1.
  simpl. match goal with |- R ?s1 (?m ?s1).2 =>
    revert s; cut (steps R m); [intros H s; apply H |] end.
  unfold downloadSucceeded, downloadFailed.
  repeat first [apply R_push | step].
Qed.

Hypothesis R_enter : forall m arg, steps R (emit P (Enter m arg)).

Lemma steps_processDownload url : steps R (processDownload P url).
Proof using R_refl R_trans R_console R_request R_push R_enter.
  intros s. eapply R_trans; [apply R_enter | apply steps_download_body].
Qed.

Lemma steps_processUnzip targetPath : steps R (processUnzip P targetPath).
Proof using R_refl R_trans R_console R_request R_copy R_enter.
  intros s. eapply R_trans; [apply R_enter | apply steps_unzip_body].
Qed.

Lemma steps_processValidate pattern : steps R (processValidate P pattern).
Proof using R_refl R_trans R_console R_request R_enter.
  intros s. eapply R_trans; [apply R_enter | apply steps_validate_body].
Qed.

Lemma steps_processImplement script : steps R (processImplement P script).
Proof using R_refl R_trans R_console R_request R_enter.
  intros s. eapply R_trans; [apply R_enter | apply steps_implement_body].
Qed.

Lemma steps_processDirective d : steps R (processDirective P d).
Proof using R_refl R_trans R_console R_request R_copy R_push R_enter.
  unfold processDirective.
  repeat first
    [ apply steps_processDownload | apply steps_processUnzip
    | apply steps_processValidate | apply steps_processImplement | step ].
Qed.

Lemma steps_runFallbackFlow : steps R (runFallbackFlow P).
Proof using R_refl R_trans R_console R_enter.
  unfold runFallbackFlow. repeat first [apply R_enter | step].
Qed.

Lemma steps_workflowFailed e : steps R (workflowFailed P e).
Proof using R_refl R_trans R_console R_enter.
  unfold workflowFailed. repeat first [apply steps_runFallbackFlow | step].
Qed.

Lemma steps_runDirectives ds : steps R (runDirectives P ds).
Proof using R_refl R_trans R_console R_request R_copy R_push R_enter.
  induction ds as [|d ds IH]; simpl; [apply steps_ret |].
  apply steps_bind; [apply steps_processDirective |].
  intros [[]|e]; [exact IH | | apply steps_workflowFailed].
  repeat step.
Qed.

Lemma steps_processWorkflow : steps R (processWorkflow P).
Proof using R_refl R_trans R_console R_request R_copy R_push R_enter.
  unfold processWorkflow.
  repeat first
    [ apply steps_parseImplementationPlan | apply steps_workflowFailed
    | apply steps_runFallbackFlow | apply steps_runDirectives | step ].
Qed.

End Steps.

(** ** Handler entries in the trace *)

Section Entries.

Context {P : Platform}.

Lemma entered_app (a b : list (Event (Num P))) :
  entered (a ++ b) = entered a ++ entered b.
Proof. apply omap_app. Qed.

Lemma quietly_refl (s : Sys P) : quietly s s.
Proof. exists []. by rewrite app_nil_r. Qed.

Lemma quietly_trans (a b c : Sys P) : quietly a b -> quietly b c -> quietly a c.
Proof.
  intros (e1 & H1 & Q1) (e2 & H2 & Q2). exists (e1 ++ e2).
  by rewrite H2, H1, <- app_assoc, entered_app, Q1, Q2.
Qed.

Lemma quietly_console lvl args : steps quietly (emit P (Console lvl args)).
Proof. intros s. by exists [Console lvl args]. Qed.

Lemma quietly_request A op f : steps quietly (@request P A op f).
Proof.
  intros s. unfold request. destruct (f (world P s)) as [a w].
  by exists [IO op].
Qed.

Lemma quietly_copy : steps quietly (getDownloadHistory P).
Proof. intros s. exists []. by rewrite app_nil_r. Qed.

Lemma quietly_push r : steps quietly (pushDownload P r).
Proof. intros s. exists []. by rewrite app_nil_r. Qed.

Lemma entersOnce_intro {A} (m : M P A) method arg :
  (forall s, quietly (emit P (Enter method arg) s).2 (m s).2) ->
  entersOnce m method arg.
Proof.
  intros H s. destruct (H s) as (evs & Ht & Hq). exists evs.
  split; [| done]. rewrite Ht. simpl. by rewrite <- app_assoc.
Qed.

Lemma processDownload_enters url : entersOnce (processDownload P url) MDownload url.
Proof.
  apply entersOnce_intro. intros s.
  apply steps_download_body;
    first [exact quietly_refl | exact quietly_trans | exact quietly_console
          | exact quietly_request | exact quietly_copy | exact quietly_push].
Qed.

Lemma processUnzip_enters tp : entersOnce (processUnzip P tp) MUnzip tp.
Proof.
  apply entersOnce_intro. intros s.
  apply steps_unzip_body;
    first [exact quietly_refl | exact quietly_trans | exact quietly_console
          | exact quietly_request | exact quietly_copy | exact quietly_push].
Qed.

Lemma processValidate_enters pat : entersOnce (processValidate P pat) MValidate pat.
Proof.
  apply entersOnce_intro. intros s.
  apply steps_validate_body;
    first [exact quietly_refl | exact quietly_trans | exact quietly_console
          | exact quietly_request | exact quietly_copy | exact quietly_push].
Qed.

Lemma processImplement_enters script :
  entersOnce (processImplement P script) MImplement script.
Proof.
  apply entersOnce_intro. intros s.
  apply steps_implement_body;
    first [exact quietly_refl | exact quietly_trans | exact quietly_console
          | exact quietly_request | exact quietly_copy | exact quietly_push].
Qed.

(** [processDirective] enters the handler of the directive and no other. *)
Lemma processDirective_enters d s :
  exists evs,
    trace P (processDirective P d s).2 = trace P s ++ evs /\
    entered evs = handlerCall d.
Proof.
  unfold processDirective, handlerCall.
  unfold mbind at 1. unfold M_bind at 1. simpl.
  set (s1 := mkSys P _ _ _ _ _).
  assert (T1 : trace P s1 = trace P s ++ [Console LLog
            [PStr ("Processing directive: " +:+ type d +:+ " " +:+ target d)]])
    by done.
  clearbody s1.
  repeat case_match.
  - destruct (processDownload_enters (target d) s1) as (evs & Ht & Hq).
    unfold mbind, M_bind. destruct (processDownload P (target d) s1) as [b s2].
    simpl in *. eexists. rewrite Ht, T1, <- app_assoc. split; [done |].
    simpl. by rewrite Hq.
  - destruct (processUnzip_enters (target d) s1) as (evs & Ht & Hq).
    eexists. rewrite Ht, T1, <- app_assoc. split; [done |].
    simpl. by rewrite Hq.
  - destruct (processValidate_enters (target d) s1) as (evs & Ht & Hq).
    unfold mbind, M_bind. destruct (processValidate P (target d) s1) as [b s2].
    simpl in *. eexists. rewrite Ht, T1, <- app_assoc. split; [done |].
    simpl. by rewrite Hq.
  - destruct (processImplement_enters (target d) s1) as (evs & Ht & Hq).
    unfold mbind, M_bind. destruct (processImplement P (target d) s1) as [b s2].
    simpl in *. eexists. rewrite Ht, T1, <- app_assoc. split; [done |].
    simpl. by rewrite Hq.
  - simpl. eexists. rewrite T1, <- app_assoc. split; [done | done].
Qed.

Lemma handlerCall_no_fallback d : (MFallback, "") ∉ handlerCall d.
Proof.
  unfold handlerCall. repeat case_match; intros Hin;
    first [ by apply elem_of_nil in Hin
          | apply list_elem_of_singleton in Hin; discriminate Hin ].
Qed.

(** The [catch] clause: the fallback runs exactly for an [ENOENT] error,
    and then the run succeeds. *)
Lemma workflowFailed_trace e s :
  exists evs,
    trace P (workflowFailed P e s).2 = trace P s ++ evs /\
    entered evs = (if isENOENT e then [(MFallback, "")] else []) /\
    (workflowFailed P e s).1 = isENOENT e.
Proof.
  unfold workflowFailed. destruct (isENOENT e); simpl.
  - eexists. rewrite <- !app_assoc. by split.
  - eexists. by split.
Qed.

Lemma runDirectives_by_steps pre rest : forall s,
  allSucceed pre s = true ->
  runDirectives P (pre ++ rest) s = runDirectives P rest (stateAfter pre s).
Proof.
  induction pre as [|d pre IH]; intros s H; simpl in *; [done |].
  unfold mbind, M_bind.
  destruct (processDirective P d s) as [[[]|] s'] eqn:E; try done.
  by apply IH.
Qed.

Lemma stateAfter_enters pre : forall s,
  exists evs,
    trace P (stateAfter pre s) = trace P s ++ evs /\
    entered evs = concat (map handlerCall pre).
Proof.
  induction pre as [|d pre IH]; intros s; simpl.
  - exists []. by rewrite app_nil_r.
  - destruct (processDirective_enters d s) as (e1 & T1 & Q1).
    destruct (IH (processDirective P d s).2) as (e2 & T2 & Q2).
    exists (e1 ++ e2). by rewrite T2, T1, <- app_assoc, entered_app, Q1, Q2.
Qed.

(** The loop reaches the fallback exactly when a handler rejects with an
    [ENOENT] error. *)
Lemma runDirectives_fallback ds : forall s,
  exists evs,
    trace P (runDirectives P ds s).2 = trace P s ++ evs /\
    ((MFallback, "") ∈ entered evs <->
       exists e, rejection ds s = Some e /\ isENOENT e = true) /\
    ((MFallback, "") ∈ entered evs -> (runDirectives P ds s).1 = true).
Proof.
  induction ds as [|d ds IH]; intros s; simpl.
  - exists []. rewrite app_nil_r. split; [done |].
    split; [| done].
    split; [intros H; by apply elem_of_nil in H | by intros (e & ? & _)].
  - unfold mbind, M_bind.
    destruct (processDirective_enters d s) as (e1 & T1 & Q1).
    pose proof (handlerCall_no_fallback d) as N. rewrite <- Q1 in N.
    destruct (processDirective P d s) as [[[]|e] s'] eqn:E; simpl in T1.
    + destruct (IH s') as (e2 & T2 & I2 & B2).
      exists (e1 ++ e2). rewrite T2, T1, <- app_assoc, entered_app.
      split; [done |]. rewrite elem_of_app. split; [| intros [|]; [done | auto]].
      rewrite <- I2. tauto.
    + simpl. eexists (e1 ++ [_]). rewrite T1, <- app_assoc.
      split; [done |]. rewrite entered_app, elem_of_app. simpl.
      assert (X : ~ ((MFallback, "") ∈ entered e1 \/ (MFallback, "") ∈ @nil (Method * string)))
        by (intros [? | H]; [done | by apply elem_of_nil in H]).
      split; [split; [done | by intros (? & ? & _)] | done].
    + destruct (workflowFailed_trace e s') as (e2 & T2 & Q2 & B2).
      exists (e1 ++ e2). rewrite T2, T1, <- app_assoc, entered_app, Q2, B2.
      split; [done |]. rewrite elem_of_app.
      destruct (isENOENT e) eqn:EN.
      * split; [| done].
        split; [eauto | intros _; right; apply list_elem_of_here].
      * assert (X : ~ ((MFallback, "") ∈ entered e1 \/ (MFallback, "") ∈ @nil (Method * string)))
          by (intros [? | H]; [done | by apply elem_of_nil in H]).
        split; [| done]. split; [done |].
        intros (e' & ? & ?). congruence.
Qed.

End Entries.

(** ** The workflow engine *)

(** C4.  When the handlers of the directives before directive [d] have
    run in parsed order, each from the state its predecessor left and each
    reporting success, and the handler of [d] reports failure, then
    [processWorkflow] returns failure in the state that handler left, with
    one more error line; the handlers entered since the plan was parsed
    are those of the directives up to [d], in that order, and no handler
    of a later directive is entered. *)
Theorem fail_fast (P : Platform) (s : Sys P)
    (pre post : list Directive) (d : Directive) :
  let s0 := (parseImplementationPlan P s).2 in
  let s1 := stateAfter pre s0 in
  let s2 := (processDirective P d s1).2 in
  (parseImplementationPlan P s).1 = Ok (pre ++ d :: post) ->
  allSucceed pre s0 = true ->
  (processDirective P d s1).1 = Ok false ->
  processWorkflow P s =
    (false, (console_error P ("Failed to process directive: " +:+ raw d) s2).2) /\
  exists evs,
    trace P (processWorkflow P s).2 = trace P s0 ++ evs /\
    entered evs = concat (map handlerCall (pre ++ [d])).
Proof.
  intros s0 s1 s2 Hp Hs Hd.
  assert (E : processWorkflow P s =
    (false, (console_error P ("Failed to process directive: " +:+ raw d) s2).2)).
  { unfold processWorkflow, mbind, M_bind. subst s2 s1 s0.
    destruct (parseImplementationPlan P s) as [r t]. simpl in *. subst r.
    replace (length (pre ++ d :: post) =? 0)%nat with false
      by (symmetry; apply Nat.eqb_neq; rewrite length_app; simpl; lia).
    rewrite (runDirectives_by_steps pre (d :: post) t Hs).
    simpl. unfold mbind, M_bind.
    destruct (processDirective P d (stateAfter pre t)) as [r u].
    simpl in Hd. by subst r. }
  split; [exact E |]. rewrite E.
  destruct (stateAfter_enters pre s0) as (e1 & T1 & Q1).
  destruct (processDirective_enters d s1) as (e2 & T2 & Q2).
  eexists (e1 ++ e2 ++ [_]). simpl. fold s2 in T2. fold s1 in T1.
  rewrite T2, T1, <- !app_assoc.
  split; [done |].
  rewrite map_app, concat_app, !entered_app, Q1, Q2. simpl.
  by rewrite !app_nil_r.
Qed.

Lemma fail_fast_witness :
  let P := Sim.platform in
  let s := Sim.start Scenario.failing in
  (processWorkflow P s).1 = false /\
  entered (drop (length (trace P (parseImplementationPlan P s).2))
             (trace P (processWorkflow P s).2))
    = [(MDownload, "https://x/doc.zip"); (MDownload, "https://x/missing.zip")].
Proof.
  intros P s.
  destruct (fail_fast P s
              [mkDirective "download" "https://x/doc.zip"
                 "1. **download** https://x/doc.zip"]
              [mkDirective "unzip" "out" "3. **unzip** out"]
              (mkDirective "download" "https://x/missing.zip"
                 "2. **download** https://x/missing.zip"))
    as (E & evs & T & Q);
    [vm_compute; reflexivity | vm_compute; reflexivity | vm_compute; reflexivity |].
  split.
  - by rewrite E.
  - by rewrite T, drop_app_length, Q.
Defined.

(** C3 (as amended).  [processWorkflow] enters the fallback flow exactly
    when its error handler receives an [Error] whose message contains
    [ENOENT] - for a failed read of the plan this is the missing-file case -
    or when the parsed sequence is empty; with at least one directive
    parsed, only a handler that rejects with such an error leads there.
    A read failure of any other kind makes the run fail without fallback.
    Whenever the fallback is entered the run returns success, and the
    fallback flow itself always returns success. *)
Theorem fallback_condition (P : Platform) (s : Sys P) :
  let readResult := (fs_readFile P (this_implementationPlanPath P s) (world P s)).1 in
  let s0 := (parseImplementationPlan P s).2 in
  exists evs,
    trace P (processWorkflow P s).2 = trace P s ++ evs /\
    ((MFallback, "") ∈ entered evs <->
       match readResult with
       | Throw e => isENOENT e = true
       | Ok content =>
           parseDirectives content = [] \/
           exists e, rejection (parseDirectives content) s0 = Some e /\
                     isENOENT e = true
       end) /\
    ((MFallback, "") ∈ entered evs -> (processWorkflow P s).1 = true) /\
    (forall e, readResult = Throw e -> isENOENT e = false ->
               (processWorkflow P s).1 = false) /\
    (forall s', (runFallbackFlow P s').1 = true).
Proof.
  intros readResult s0. subst readResult s0.
  unfold processWorkflow, parseImplementationPlan, mbind, M_bind, request. simpl.
  destruct (fs_readFile P (this_implementationPlanPath P s) (world P s))
    as [[content|e] w] eqn:E; simpl.
  - set (s0 := mkSys P w _ _ _ _).
    assert (T0 : trace P s0 = trace P s ++ [IO (ReadFile (this_implementationPlanPath P s))])
      by done.
    clearbody s0.
    destruct (parseDirectives content) as [|d ds] eqn:Ep.
    + simpl. eexists. rewrite T0, <- !app_assoc. split; [done |].
      simpl. split; [split; [auto | intros _; apply list_elem_of_here] |].
      split; [done |]. split; [intros e He; congruence | done].
    + replace (length (d :: ds) =? 0)%nat with false by done.
      destruct (runDirectives_fallback (d :: ds) s0) as (evs & T & I & B).
      exists ([IO (ReadFile (this_implementationPlanPath P s))] ++ evs).
      rewrite T, T0, <- app_assoc. split; [done |].
      rewrite entered_app. simpl entered at 1. rewrite app_nil_l.
      split; [| split; [exact B |]; split; [intros e He; congruence | done]].
      rewrite I. split; [auto | intros [? | ?]; [done | auto]].
  - set (s0 := mkSys P w _ _ _ _).
    assert (T0 : trace P s0 = trace P s ++ [IO (ReadFile (this_implementationPlanPath P s))])
      by done.
    clearbody s0.
    destruct (workflowFailed_trace e s0) as (evs & T & Q & B).
    exists ([IO (ReadFile (this_implementationPlanPath P s))] ++ evs).
    rewrite T, T0, <- app_assoc. split; [done |].
    rewrite entered_app, Q, B. simpl entered at 1. rewrite app_nil_l.
    destruct (isENOENT e) eqn:EN.
    + split; [split; [done | intros _; apply list_elem_of_here] |].
      split; [done |]. split; [intros e' He' ?; congruence | done].
    + split; [split; [intros H; by apply elem_of_nil in H | done] |].
      split; [intros H; by apply elem_of_nil in H |]. split; [done | done].
Qed.

Lemma fallback_condition_witness :
  let P := Sim.platform in
  (processWorkflow P (Sim.start Scenario.missing)).1 = true /\
  (processWorkflow P (Sim.start Scenario.locked)).1 = false.
Proof.
  intros P. split.
  - destruct (fallback_condition P (Sim.start Scenario.missing))
      as (evs & _ & I & B & _).
    apply B, I. vm_compute. reflexivity.
  - destruct (fallback_condition P (Sim.start Scenario.locked))
      as (evs & _ & _ & _ & F & _).
    apply (F (Sim.eacces Scenario.planPath)); vm_compute; reflexivity.
Defined.

(** C3 (as stated) fails: a plan that cannot be read for a reason other
    than a missing file does not lead to the fallback; the run fails. *)
Lemma unreadable_plan_without_fallback :
  let P := Sim.platform in
  let s := Sim.start Scenario.locked in
  (fs_readFile P (this_implementationPlanPath P s) (world P s)).1
    = Throw (Sim.eacces Scenario.planPath) /\
  entered (trace P (processWorkflow P s).2) = [] /\
  (processWorkflow P s).1 = false.
Proof. repeat split; vm_compute; reflexivity. Qed.

(** ** The fetcher and the ledger *)

Section Ledger.

Context {P : Platform}.

Lemma history_push (r : DownloadResult (Num P)) (s : Sys P) :
  history P (pushDownload P r s).2 = history P s ++ [r].
Proof.
  unfold history, contents, pushDownload, array_push. simpl.
  by rewrite lookup_insert_eq.
Qed.

Lemma history_emit e (s : Sys P) : history P (emit P e s).2 = history P s.
Proof. reflexivity. Qed.

Lemma history_request A op f (s : Sys P) :
  history P (@request P A op f s).2 = history P s.
Proof. unfold request. by destruct (f (world P s)). Qed.

Lemma downloadSucceeded_history url bytes ct (s : Sys P) :
  history P (downloadSucceeded P url bytes ct s).2
    = history P s ++ [mkDownloadResult url (Some bytes) ct false None].
Proof.
  unfold downloadSucceeded, mbind, M_bind.
  pose proof (history_push (mkDownloadResult url (Some bytes) ct false None) s) as H.
  by destruct (pushDownload P _ s) as [[] s1].
Qed.

Lemma downloadFailed_history o (s : Sys P) :
  history P (downloadFailed P o s).2 = history P s.
Proof.
  unfold downloadFailed. destruct o as [h b|e|e]; [done | | done].
  unfold mbind, M_bind.
  destruct (ax_response e) as [[status statusText]|]; [| destruct (ax_request e)];
    simpl; destruct (ax_code e) as [c|]; try done;
    destruct (String.eqb c "ECONNABORTED"); done.
Qed.

(** One attempt: an answered request appends one record, every rejected
    request appends none. *)
Lemma processDownload_history url (s : Sys P) :
  exists rs,
    history P (processDownload P url s).2 = history P s ++ rs /\
    length rs = (if answered (axios_get P url (world P s)).1 then 1 else 0).
Proof.
  unfold processDownload, mbind, M_bind, request. simpl.
  destruct (axios_get P url (world P s)) as [o w] eqn:E. simpl.
  set (s1 := mkSys P w _ _ _ _).
  assert (H1 : history P s1 = history P s) by done. clearbody s1.
  destruct o as [h body|e|e]; [simpl | |].
  - rewrite <- H1. clear H1 E.
    set (ct := match h with Some h0 => h0 | None => "" end).
    assert (SUCC : forall s0, history P s0 = history P s1 ->
              exists rs,
                history P (downloadSucceeded P url body ct s0).2 = history P s1 ++ rs /\
                length rs = 1).
    { intros s0 H0. eexists. by rewrite downloadSucceeded_history, H0. }
    destruct (Str.includes ct "application/json"); [| by apply SUCC].
    destruct (JSON_parse P (Buffer_toString P body)) as [j|]; [| by apply SUCC].
    destruct (expiryCheck P j) as [instr| |]; [| by apply SUCC | by apply SUCC].
    exists [mkDownloadResult url None ct true instr]. split; [| done].
    destruct instr as [v|]; [destruct (truthy P v) |]; simpl;
      unfold history, contents; simpl; by rewrite lookup_insert_eq.
  - exists []. rewrite app_nil_r. split; [| done].
    rewrite <- H1. apply (downloadFailed_history (AxiosRejected e) s1).
  - exists []. rewrite app_nil_r. split; [| done].
    rewrite <- H1. apply (downloadFailed_history (OtherRejected e) s1).
Qed.
Lemma downloadAll_app a b (s : Sys P) :
  (downloadAll (a ++ b) s).2 = (downloadAll b (downloadAll a s).2).2.
Proof.
  revert s. induction a as [|u a IH]; intros s; simpl; [done |].
  unfold mbind, M_bind. destruct (processDownload P u s) as [ok s1].
  specialize (IH s1).
  destruct (downloadAll (a ++ b) s1) as [r1 t1].
  destruct (downloadAll a s1) as [r2 t2]. simpl in *.
  by destruct (downloadAll b t2).
Qed.

Lemma downloadAll_count urls : forall s : Sys P,
  length (history P (downloadAll urls s).2)
    = length (history P s) + length (List.filter answered (responses urls s)).
Proof.
  induction urls as [|u urls IH]; intros s; simpl; [lia |].
  unfold mbind, M_bind.
  destruct (processDownload_history u s) as (rs & Hh & Hl).
  destruct (processDownload P u s) as [ok s1]. simpl in *.
  specialize (IH s1). destruct (downloadAll urls s1) as [oks s2]. simpl in *.
  rewrite IH, Hh, length_app, Hl.
  destruct (answered _); simpl; lia.
Qed.

End Ledger.

(** C2 (as amended).  Along every sequence of calls to [processDownload]
    the length of the download history never decreases, and after the
    sequence it has grown by the number of attempts that were answered
    with HTTP 200: each such attempt appends one record, and every
    rejected attempt - a non-200 status as well as a missing response or
    a timeout - appends none. *)
Theorem ledger_counts_answered (P : Platform) (urls more : list string) (s : Sys P) :
  length (history P (downloadAll urls s).2)
    = length (history P s) + length (List.filter answered (responses urls s)) /\
  length (history P (downloadAll urls s).2)
    <= length (history P (downloadAll (urls ++ more) s).2) /\
  (forall url,
     answered (axios_get P url (world P s)).1 = false ->
     history P (processDownload P url s).2 = history P s) /\
  (forall url,
     answered (axios_get P url (world P s)).1 = true ->
     exists r, history P (processDownload P url s).2 = history P s ++ [r]).
Proof.
  split; [apply downloadAll_count |]. split.
  - rewrite downloadAll_app, (downloadAll_count more). lia.
  - split; intros url H; destruct (processDownload_history url s) as (rs & Hh & Hl);
      rewrite H in Hl.
    + destruct rs; [by rewrite app_nil_r in Hh | done].
    + destruct rs as [|r [|]]; try done. by exists r.
Qed.

Lemma ledger_counts_answered_witness :
  let P := Sim.platform in
  let s := Sim.start Scenario.failing in
  answered (axios_get P "https://x/slow.zip" (world P s)).1 = false /\
  history P (processDownload P "https://x/slow.zip" s).2 = history P s.
Proof.
  intros P s. split; [vm_compute; reflexivity |].
  destruct (ledger_counts_answered P [] [] s) as (_ & _ & H & _).
  apply H. vm_compute. reflexivity.
Defined.

(** C2 (as stated) fails: an attempt rejected with status 404 is not a
    generic network or timeout failure, yet it appends no record. *)
Lemma status_failure_not_recorded :
  let P := Sim.platform in
  let s := Sim.start Scenario.failing in
  let urls := ["https://x/missing.zip"] in
  responses urls s = [Sim.notFound] /\
  List.filter notNetworkFailure (responses urls s) = [Sim.notFound] /\
  length (history P (downloadAll urls s).2) = 0 /\
  length (history P (downloadAll urls s).2)
    <> length (history P s) + length (List.filter notNetworkFailure (responses urls s)).
Proof. repeat split; vm_compute; first [reflexivity | lia]. Qed.

(** C5.  A 200 response with a JSON media type whose body parses to an
    object whose [message] is a string containing [url expired], letters
    compared without regard to case, makes [processDownload] report failure
    and append exactly one record: no payload, [isExpired] set, and the
    [instructions] property of the body, if any, as [expiryInstructions]. *)
Theorem expired_link_recorded (P : Platform) (url mediaType : string) (body : Buffer)
    (fields : list (string * JSON (Num P))) (msg : string) (s : Sys P) :
  (axios_get P url (world P s)).1 = AxiosResponse (Some mediaType) body ->
  Str.includes mediaType "application/json" = true ->
  JSON_parse P (Buffer_toString P body) = Some (JObject fields) ->
  getProp "message" fields = Some (JString msg) ->
  Str.includes (Str.toLowerCase msg) "url expired" = true ->
  (processDownload P url s).1 = false /\
  history P (processDownload P url s).2
    = history P s
      ++ [mkDownloadResult url None mediaType true (getProp "instructions" fields)].
Proof.
  intros Hr Hm Hj Hg Hi.
  assert (T : truthy P (JString msg) = true) by (by destruct msg).
  unfold processDownload, mbind, M_bind, request. simpl.
  destruct (axios_get P url (world P s)) as [o w]. simpl in Hr. subst o.
  rewrite Hm, Hj. unfold expiryCheck. rewrite Hg, T, Hi.
  unfold mbind, M_bind. simpl.
  destruct (getProp "instructions" fields) as [v|]; [destruct (truthy P v) |];
    simpl; (split; [done |]);
    unfold history, contents; simpl; by rewrite lookup_insert_eq.
Qed.

Lemma expired_link_recorded_witness :
  let P := Sim.platform in
  let s := Sim.start Scenario.failing in
  (processDownload P "https://x/expired.zip" s).1 = false /\
  history P (processDownload P "https://x/expired.zip" s).2
    = [mkDownloadResult "https://x/expired.zip" None "application/json" true
         (Some (JString "contact support"))].
Proof.
  intros P s.
  destruct (expired_link_recorded P "https://x/expired.zip" "application/json"
              Sim.expiredBody
              [("message", JString "URL expired");
               ("instructions", JString "contact support")]
              "URL expired" s) as [R E];
    [vm_compute; reflexivity | vm_compute; reflexivity | vm_compute; reflexivity
    | vm_compute; reflexivity | vm_compute; reflexivity |].
  split; [exact R |]. rewrite E. vm_compute. reflexivity.
Defined.

(** ** The archive extractor *)

(** C6.  When the ledger is empty, or its latest record has no payload,
    or the media type of the latest record does not indicate an archive,
    [processUnzip] reports failure having made no request to the platform
    - no directory is created and no file is written - and having printed
    the diagnostic of the violated precondition; the outside world is as
    it was.  The three diagnostics differ from one another whatever the
    media type is. *)
Theorem unzip_preconditions (P : Platform) (targetPath : string) (s : Sys P)
    (v : Violation) :
  violation (history P s) = Some v ->
  (processUnzip P targetPath s).1 = Ok false /\
  (exists evs,
     trace P (processUnzip P targetPath s).2 = trace P s ++ evs /\
     evs = [Enter MUnzip targetPath;
            Console LLog [PStr ("Unzipping to: " +:+ orDefault targetPath "documentation")];
            Console LError [PStr (diagnostic v)]] /\
     requests evs = []) /\
  world P (processUnzip P targetPath s).2 = world P s /\
  diagnostic EmptyLedger <> diagnostic PayloadAbsent /\
  (forall mediaType,
     diagnostic (NotAnArchive mediaType) <> diagnostic EmptyLedger /\
     diagnostic (NotAnArchive mediaType) <> diagnostic PayloadAbsent).
Proof.
  intros Hv. unfold violation, history, contents in Hv.
  unfold processUnzip, getDownloadHistory, mbind, M_bind. simpl.
  unfold contents. simpl. rewrite lookup_insert_eq. simpl.
  destruct (last (default [] (arrays P s !! this_downloadHistory P s)))
    as [latest|]; simpl.
  - destruct (data latest) as [bytes|]; simpl.
    + destruct (indicatesArchive (contentType latest)); [done |]. simpl.
      simplify_eq. repeat split; try done.
      eexists. rewrite <- !app_assoc. by repeat split.
    + simplify_eq. repeat split; try done.
      eexists. rewrite <- !app_assoc. by repeat split.
  - simplify_eq. repeat split; try done.
    eexists. rewrite <- !app_assoc. by repeat split.
Qed.

Lemma unzip_preconditions_witness :
  let P := Sim.platform in
  let s := (processDownload P "https://x/expired.zip" (Sim.start Scenario.failing)).2 in
  violation (history P s) = Some PayloadAbsent /\
  (processUnzip P "out" s).1 = Ok false /\
  world P (processUnzip P "out" s).2 = world P s.
Proof.
  intros P s.
  assert (H : violation (history P s) = Some PayloadAbsent)
    by (vm_compute; reflexivity).
  split; [exact H |].
  destruct (unzip_preconditions P "out" s PayloadAbsent H) as (R & _ & W & _).
  by split.
Defined.

(** ** The validation root *)

(** C7 (code defect).  The [validate_patterns] tool advertises a
    [basePath] argument as the directory to search, but the dispatcher
    never passes it on and [processValidate] always searches
    [documentation]: the outcome of the call is the same whatever
    [basePath] is.  With the files under [out], no [documentation]
    directory, and [basePath] set to [out], the validation of [*.md] fails
    after asking for [documentation] only, although a search rooted at
    [out] finds [file.md]. *)
Theorem basePath_is_ignored :
  (forall (P : Platform) pattern basePath (s : Sys P),
     callTool P (validate_patterns pattern basePath) s
       = callTool P (validate_patterns pattern None) s) /\
  let P := Sim.platform in
  let s := Sim.start Scenario.extractedToOut in
  let r := callTool P (validate_patterns "*.md" (Some "out")) s in
  r.1 = mkToolResponse "Pattern validation failed for: *.md" false /\
  requests (trace P r.2) = [Access "documentation"] /\
  (glob P "*.md" "out" s).1 = Ok ["file.md"].
Proof. split; [reflexivity |]. repeat split; vm_compute; reflexivity. Qed.

(** ** Aliasing of the ledger *)

Section Frame.

Context {P : Platform}.

Lemma framed_refl (s : Sys P) : framed s s.
Proof. by split. Qed.

Lemma framed_trans (a b c : Sys P) : framed a b -> framed b c -> framed a c.
Proof.
  intros [T1 A1] [T2 A2]. split; [congruence |].
  intros l Hl. rewrite <- (A1 l Hl). apply A2.
  apply elem_of_dom. rewrite (A1 l Hl). by apply elem_of_dom.
Qed.

Lemma framed_console lvl args : steps framed (emit P (Console lvl args)).
Proof. intros s. by split. Qed.

Lemma framed_enter m arg (s : Sys P) : framed s (emit P (Enter m arg) s).2.
Proof. by split. Qed.

Lemma framed_request A op f : steps framed (@request P A op f).
Proof. intros s. unfold request. destruct (f (world P s)). by split. Qed.

Lemma framed_newArray xs : steps framed (newArray P xs).
Proof.
  intros s. split; [done |]. intros l Hl. simpl.
  apply lookup_insert_ne. intros <-. by apply is_fresh in Hl.
Qed.

Lemma framed_copy : steps framed (getDownloadHistory P).
Proof. intros s. apply (framed_newArray _ s). Qed.

(** Under [framed] an allocated ledger keeps its records. *)
Lemma framed_history (s s' : Sys P) :
  ledgerAllocated s -> framed s s' ->
  history P s' = history P s /\ ledgerAllocated s'.
Proof.
  unfold ledgerAllocated, history, contents. intros Hl [T A].
  rewrite T, (A _ Hl). split; [done |].
  apply elem_of_dom. rewrite (A _ Hl). by apply elem_of_dom.
Qed.

Lemma getDownloadHistory_copy (s : Sys P) :
  ((getDownloadHistory P s).1 ∉ dom (arrays P s)) /\
  contents P (getDownloadHistory P s).1 (getDownloadHistory P s).2 = history P s.
Proof.
  split; [apply is_fresh |].
  unfold contents, getDownloadHistory, mbind, M_bind. simpl.
  by rewrite lookup_insert_eq.
Qed.

(** Whatever a caller does to an array that the manager's state did not
    hold leaves that state framed. *)
Lemma mutateAll_framed l fs : forall s s1 : Sys P,
  l ∉ dom (arrays P s) -> framed s s1 -> framed s (mutateAll l fs s1).2.
Proof.
  induction fs as [|f fs IH]; intros s s1 Hl F; simpl; [done |].
  unfold mbind, M_bind. simpl. apply IH; [done |].
  destruct F as [T A]. split; [done |]. intros l' Hl'. simpl.
  rewrite lookup_insert_ne; [by apply A | by intros <-].
Qed.

Lemma clearDownloadHistory_history (s : Sys P) :
  history P (clearDownloadHistory P s).2 = [].
Proof.
  unfold history, contents, clearDownloadHistory, mbind, M_bind. simpl.
  by rewrite lookup_insert_eq.
Qed.

Lemma processUnzip_framed tp (s : Sys P) : framed s (processUnzip P tp s).2.
Proof.
  eapply framed_trans; [apply (framed_enter MUnzip tp) |].
  apply steps_unzip_body;
    first [exact framed_refl | exact framed_trans | exact framed_console
          | exact framed_request | exact framed_copy].
Qed.

Lemma processValidate_framed pat (s : Sys P) : framed s (processValidate P pat s).2.
Proof.
  eapply framed_trans; [apply (framed_enter MValidate pat) |].
  apply steps_validate_body;
    first [exact framed_refl | exact framed_trans | exact framed_console
          | exact framed_request].
Qed.

Lemma processImplement_framed script (s : Sys P) :
  framed s (processImplement P script s).2.
Proof.
  eapply framed_trans; [apply (framed_enter MImplement script) |].
  apply steps_implement_body;
    first [exact framed_refl | exact framed_trans | exact framed_console
          | exact framed_request].
Qed.

Lemma parseImplementationPlan_framed (s : Sys P) :
  framed s (parseImplementationPlan P s).2.
Proof.
  apply steps_parseImplementationPlan;
    first [exact framed_refl | exact framed_trans | exact framed_request].
Qed.

Lemma keepsLedger_arrays (s s' : Sys P) :
  this_downloadHistory P s' = this_downloadHistory P s ->
  dom (arrays P s) ⊆ dom (arrays P s') ->
  keepsLedger s s'.
Proof.
  unfold keepsLedger, ledgerAllocated. intros -> Hd Hl. by apply Hd.
Qed.

Lemma keepsLedger_trans (a b c : Sys P) :
  keepsLedger a b -> keepsLedger b c -> keepsLedger a c.
Proof. unfold keepsLedger. auto. Qed.

Lemma keepsLedger_emit e : steps keepsLedger (emit P e).
Proof. intros s. by apply keepsLedger_arrays. Qed.

Lemma keepsLedger_request A op f : steps keepsLedger (@request P A op f).
Proof.
  intros s. unfold request. destruct (f (world P s)).
  by apply keepsLedger_arrays.
Qed.

Lemma keepsLedger_copy : steps keepsLedger (getDownloadHistory P).
Proof.
  intros s. apply keepsLedger_arrays; [done |]. simpl.
  rewrite dom_insert_L. apply union_subseteq_r.
Qed.

Lemma keepsLedger_push r : steps keepsLedger (pushDownload P r).
Proof.
  intros s. apply keepsLedger_arrays; [done |]. simpl.
  rewrite dom_insert_L. apply union_subseteq_r.
Qed.

Lemma keepsLedger_mutate l f : steps keepsLedger (@mutateArray P l f).
Proof.
  intros s. apply keepsLedger_arrays; [done |]. simpl.
  rewrite dom_insert_L. apply union_subseteq_r.
Qed.

Lemma keepsLedger_clear : steps keepsLedger (clearDownloadHistory P).
Proof.
  intros s _. unfold ledgerAllocated. simpl.
  rewrite dom_insert_L. apply elem_of_union_l, elem_of_singleton. done.
Qed.

Lemma construct_allocated projectRoot w : ledgerAllocated (construct P projectRoot w).
Proof.
  unfold ledgerAllocated. simpl. rewrite dom_singleton_L.
  by apply elem_of_singleton.
Qed.

Ltac keeps :=
  first [ exact (fun (s : Sys P) (H : ledgerAllocated s) => H)
        | exact keepsLedger_trans
        | intros ? ?; apply keepsLedger_emit | exact keepsLedger_request
        | exact keepsLedger_copy | exact keepsLedger_push ].

Lemma perform_keepsLedger c (s : Sys P) : keepsLedger s (perform c s).
Proof.
  destruct c; simpl.
  - apply (steps_processWorkflow keepsLedger); keeps.
  - apply (steps_parseImplementationPlan keepsLedger); keeps.
  - apply (steps_processDirective keepsLedger); keeps.
  - apply (steps_processDownload keepsLedger); keeps.
  - apply (steps_processUnzip keepsLedger); keeps.
  - apply (steps_processValidate keepsLedger); keeps.
  - apply (steps_processImplement keepsLedger); keeps.
  - apply (steps_runFallbackFlow keepsLedger); keeps.
  - apply keepsLedger_copy.
  - apply keepsLedger_clear.
Qed.

(** Every state a manager can be in has its ledger allocated. *)
Lemma keepsLedger_write g (s : Sys P) : keepsLedger s (writeRecords g s).
Proof.
  unfold keepsLedger, ledgerAllocated, writeRecords. simpl. intros H.
  apply elem_of_dom in H as [xs Hxs]. apply elem_of_dom.
  rewrite map_lookup_imap, Hxs. by eexists.
Qed.

Lemma reachable_allocated (s : Sys P) : reachable s -> ledgerAllocated s.
Proof.
  induction 1 as [root w | c s _ IH | l f s _ IH _ | g s _ IH].
  - apply construct_allocated.
  - by apply perform_keepsLedger.
  - by apply keepsLedger_mutate.
  - by apply keepsLedger_write.
Qed.

End Frame.

(** C10.  In every state a manager can be in, [getDownloadHistory]
    returns a fresh array - one that was not
    allocated before, hence not the ledger - holding the records of the
    ledger in append order.  Whatever the caller then does to that array,
    in any number of steps, the ledger keeps its records, and a further
    [getDownloadHistory] returns the same records.  The ledger is also
    left as it is by [processUnzip], [processValidate], [processImplement],
    [parseImplementationPlan] and [runFallbackFlow]; [processDownload]
    appends at most one record to it and [clearDownloadHistory] empties
    it. *)
Theorem history_copy_is_fresh (P : Platform) (s : Sys P)
    (fs : list (list (DownloadResult (Num P)) -> list (DownloadResult (Num P)))) :
  reachable s ->
  let copy := (getDownloadHistory P s).1 in
  let s1 := (getDownloadHistory P s).2 in
  let s2 := (mutateAll copy fs s1).2 in
  ((copy ∉ dom (arrays P s)) /\ copy <> this_downloadHistory P s) /\
  contents P copy s1 = history P s /\
  history P s1 = history P s /\
  history P s2 = history P s /\
  contents P (getDownloadHistory P s2).1 (getDownloadHistory P s2).2 = history P s /\
  (forall targetPath, history P (processUnzip P targetPath s).2 = history P s) /\
  (forall pattern, history P (processValidate P pattern s).2 = history P s) /\
  (forall script, history P (processImplement P script s).2 = history P s) /\
  history P (parseImplementationPlan P s).2 = history P s /\
  history P (runFallbackFlow P s).2 = history P s /\
  (forall url, exists rs,
     history P (processDownload P url s).2 = history P s ++ rs /\ length rs <= 1) /\
  history P (clearDownloadHistory P s).2 = [].
Proof.
  intros Hr copy s1 s2.
  pose proof (reachable_allocated s Hr) as Hl.
  destruct (getDownloadHistory_copy s) as [Hf Hc].
  assert (F1 : framed s s1) by apply framed_copy.
  assert (F2 : framed s s2) by (by apply mutateAll_framed).
  split; [split; [done | intros E; apply Hf; change (copy ∈ dom (arrays P s));
                         rewrite E; exact Hl] |].
  split; [done |].
  split; [by apply framed_history |].
  split; [by apply framed_history |].
  split.
  { destruct (getDownloadHistory_copy s2) as [_ ->]. by apply framed_history. }
  split; [intros tp; by apply framed_history, processUnzip_framed |].
  split; [intros pat; by apply framed_history, processValidate_framed |].
  split; [intros sc; by apply framed_history, processImplement_framed |].
  split; [by apply framed_history, parseImplementationPlan_framed |].
  split; [done |].
  split; [| apply clearDownloadHistory_history].
  intros url. destruct (processDownload_history url s) as (rs & Hh & Hn).
  exists rs. split; [done |]. destruct (answered _); lia.
Qed.

Lemma history_copy_is_fresh_witness :
  let P := Sim.platform in
  let s := (processDownload P "https://x/doc.zip" (Sim.start Scenario.failing)).2 in
  let extra := mkDownloadResult "test://example.com" (Some "test") "text/plain" false None in
  let copy := (getDownloadHistory P s).1 in
  let s2 := (mutateAll copy [fun xs => xs ++ [extra]; fun _ => []]
               (getDownloadHistory P s).2).2 in
  reachable s /\
  contents P copy s2 = [] /\
  history P s2 = history P s /\
  length (history P s2) = 1.
Proof.
  intros P s extra copy s2.
  assert (H : reachable s)
    by exact (@reachable_call P (CallProcessDownload "https://x/doc.zip") _
                (@reachable_new P "/test/project" Scenario.failing)).
  split; [exact H |].
  destruct (history_copy_is_fresh P s [fun xs => xs ++ [extra]; fun _ => []] H)
    as (_ & _ & _ & E & _).
  change (history P s2 = history P s) in E.
  split; [vm_compute; reflexivity |]. split; [exact E |].
  rewrite E. vm_compute. reflexivity.
Defined.

(** * Further properties *)

(** ** What the glob matcher accepts *)

Section GlobSemantics.

Import Glob.

Lemma replaceAll1_app c rep (a b : string) :
  Str.replaceAll1 c rep (a +:+ b) = Str.replaceAll1 c rep a +:+ Str.replaceAll1 c rep b.
Proof.
  induction a as [|x a IH]; [done |].
  rewrite append_cons. simpl. destruct (Ascii.eqb x c).
  - by rewrite IH, string_app_assoc.
  - by rewrite IH.
Qed.

Ltac ascii_cases a :=
  destruct a as [[] [] [] [] [] [] [] []]; try discriminate; try reflexivity.

Lemma literal_stages a :
  literal a = true ->
  Ascii.eqb a "*" = false /\ Ascii.eqb a "?" = false /\
  Ascii.eqb a "$" = false /\ Ascii.eqb a "(" = false /\ Ascii.eqb a ")" = false /\
  Ascii.eqb a "+" = false.
Proof. ascii_cases a; intros _; repeat split; reflexivity. Qed.

Lemma literal_atom a rest :
  literal a = true -> Ascii.eqb a "." = false ->
  Regex.parseAtom (String a rest) = Some (Regex.CsChar a, rest).
Proof. ascii_cases a. Qed.

Lemma accepts_noSep a : Regex.accepts noSep a = negb (Ascii.eqb a sep).
Proof. ascii_cases a. Qed.

Lemma eqb_dot a : Ascii.eqb a "." = true -> a = "."%char.
Proof. apply Ascii.eqb_eq. Qed.

Lemma lits_tail t ts : lits (t :: ts) = true -> lits ts = true.
Proof. unfold lits. simpl. intros H. by apply andb_true_iff in H as [_ ?]. Qed.

Lemma lits_head t ts : lits (t :: ts) = true -> literalTok t = true.
Proof. unfold lits. simpl. intros H. by apply andb_true_iff in H as [? _]. Qed.

Lemma wellFormed_tail t ts : wellFormed (t :: ts) = true -> wellFormed ts = true.
Proof.
  destruct t; simpl; intros H; [| | done]; by apply andb_true_iff in H as [_ ?].
Qed.

Lemma wellFormed_lits ts : wellFormed ts = true -> lits ts = true.
Proof.
  induction ts as [|t ts IH]; [done |]. intros H.
  unfold lits. simpl. apply andb_true_iff. split; [| exact (IH (wellFormed_tail t ts H))].
  destruct t; simpl in *; [| done | done]. by apply andb_true_iff in H as [? _].
Qed.

Lemma desugar_wellFormed ts : wellFormed ts = true -> desugar ts = ts.
Proof.
  induction ts as [|t ts IH]; [done |]. intros H.
  pose proof (IH (wellFormed_tail t ts H)) as IH'.
  destruct t as [a| |]; simpl; try by rewrite IH'.
  destruct ts as [|[b| |] ts]; try done; simpl in *; by rewrite ?IH'.
Qed.

Lemma render_cons t ts : render (t :: ts) = String (charOf t) (render ts).
Proof. by destruct t. Qed.

Lemma replaceAll2_cons c rep a s :
  Str.replaceAll2 c rep (String a s) =
  match s with
  | String b s'' =>
      if Ascii.eqb a c && Ascii.eqb b c then rep +:+ Str.replaceAll2 c rep s''
      else String a (Str.replaceAll2 c rep s)
  | EmptyString => String a EmptyString
  end.
Proof. by destruct s. Qed.

Lemma charOf_star t : literalTok t = true -> Ascii.eqb (charOf t) "*" = true -> t = TStar.
Proof.
  destruct t as [a| |]; simpl; [| done | done].
  intros Hl. by destruct (literal_stages a Hl) as (-> & _).
Qed.

Lemma desugar_cons t ts :
  (t = TStar -> startsWithStar ts = false) -> desugar (t :: ts) = t :: desugar ts.
Proof.
  destruct t as [a| |]; [done | | done].
  intros H. by destruct ts as [|[b| |] ts]; [| | discriminate (H eq_refl) |].
Qed.

(** The first substitution, on the tokens. *)
Lemma stage1_desugar n : forall ts,
  length ts <= n -> lits ts = true ->
  Str.replaceAll2 "*" ".*" (render ts) = render (desugar ts).
Proof.
  induction n as [|n IH]; intros ts Hn H.
  - by destruct ts; [| simpl in Hn; lia].
  - destruct ts as [|t [|t2 ts]]; [done | by destruct t |].
    pose proof (lits_head _ _ H) as Ht.
    pose proof (lits_tail _ _ H) as H'.
    pose proof (lits_head _ _ H') as Ht2.
    simpl in Hn.
    rewrite (render_cons t), (render_cons t2), replaceAll2_cons.
    destruct (Ascii.eqb (charOf t) "*" && Ascii.eqb (charOf t2) "*") eqn:E.
    + apply andb_true_iff in E as [E1 E2].
      apply (charOf_star t Ht) in E1 as ->. apply (charOf_star t2 Ht2) in E2 as ->.
      cbn [desugar]. rewrite !render_cons. cbn [charOf].
      rewrite (IH ts ltac:(lia) (lits_tail _ _ H')). done.
    + rewrite <- (render_cons t2), (IH (t2 :: ts) ltac:(simpl; lia) H').
      rewrite (desugar_cons t (t2 :: ts)).
      * by rewrite render_cons.
      * intros ->. by destruct t2.
Qed.

Lemma lits_cons t ts : lits (t :: ts) = literalTok t && lits ts.
Proof. done. Qed.

Lemma lits_desugar n : forall ts,
  length ts <= n -> lits ts = true -> lits (desugar ts) = true.
Proof.
  induction n as [|n IH]; intros ts Hn H.
  - by destruct ts; [| simpl in Hn; lia].
  - destruct ts as [|t [|t2 ts]]; [done | by destruct t |].
    pose proof (lits_head _ _ H) as Ht.
    pose proof (lits_tail _ _ H) as H'.
    simpl in Hn.
    pose proof (IH (t2 :: ts) ltac:(simpl; lia) H') as Hrest.
    pose proof (IH ts ltac:(lia) (lits_tail _ _ H')) as Hrest'.
    assert (Hplain : (t = TStar -> startsWithStar (t2 :: ts) = false) ->
                     lits (desugar (t :: t2 :: ts)) = true).
    { intros Hs. by rewrite (desugar_cons t (t2 :: ts) Hs), lits_cons, Ht, Hrest. }
    destruct t as [a| |]; [by apply Hplain | | by apply Hplain].
    destruct t2 as [b| |]; [by apply Hplain | | by apply Hplain].
    cbn [desugar]. by rewrite !lits_cons, Hrest'.
Qed.

Lemma stages_of_token t :
  literalTok t = true ->
  Str.replaceAll1 "." "\."
    (Str.replaceAll1 "?" "[^\/]" (Str.replaceAll1 "*" "[^\/]*" (renderTok t)))
  = regexOfTok t.
Proof.
  destruct t as [a| |]; [| done | done].
  simpl. intros Hl.
  destruct (literal_stages a Hl) as (H1 & H2 & _).
  rewrite H1. simpl. rewrite H2. simpl. by destruct (Ascii.eqb a ".").
Qed.

Lemma stages_of_tokens ts :
  lits ts = true ->
  Str.replaceAll1 "." "\."
    (Str.replaceAll1 "?" "[^\/]" (Str.replaceAll1 "*" "[^\/]*" (render ts)))
  = regexSource ts.
Proof.
  induction ts as [|t ts IH]; [done |]. intros H.
  simpl render. simpl regexSource. rewrite !replaceAll1_app.
  rewrite (stages_of_token t (lits_head t ts H)).
  by rewrite (IH (lits_tail t ts H)).
Qed.

(** The source of the regular expression built for a pattern. *)
Lemma globToRegexSource_render ts :
  lits ts = true -> globToRegexSource (render ts) = regexSource (desugar ts).
Proof.
  intros H. unfold globToRegexSource.
  rewrite (stage1_desugar (length ts) ts) by done.
  apply stages_of_tokens. by apply (lits_desugar (length ts)).
Qed.

(** *** Compiling the source *)

Lemma parseSeq_char fuel s c rest :
  Regex.parseAtom s = Some (c, rest) ->
  match s with
  | String a _ =>
      Ascii.eqb a "$" = false /\ Ascii.eqb a "(" = false /\ Ascii.eqb a ")" = false
  | EmptyString => False
  end ->
  noQuantifier rest = true ->
  Regex.parseSeq (S fuel) false s
    = cons (Regex.NChar c) <$> Regex.parseSeq fuel false rest.
Proof.
  intros Ha Hs Hq. destruct s as [|a s']; [done |].
  destruct Hs as (H1 & H2 & H3).
  cbn [Regex.parseSeq]. rewrite H1, H2, H3, Ha.
  destruct rest as [|x r]; [done |].
  ascii_cases x.
Qed.

Lemma parseSeq_star fuel s c rest :
  Regex.parseAtom s = Some (c, String "*" rest) ->
  match s with
  | String a _ =>
      Ascii.eqb a "$" = false /\ Ascii.eqb a "(" = false /\ Ascii.eqb a ")" = false
  | EmptyString => False
  end ->
  Regex.parseSeq (S fuel) false s
    = cons (Regex.NStar c) <$> Regex.parseSeq fuel false rest.
Proof.
  intros Ha Hs. destruct s as [|a s']; [done |].
  destruct Hs as (H1 & H2 & H3).
  cbn [Regex.parseSeq]. by rewrite H1, H2, H3, Ha.
Qed.

Lemma regexSource_noQuantifier ts tail :
  lits ts = true -> noQuantifier tail = true ->
  noQuantifier (regexSource ts +:+ tail) = true.
Proof.
  destruct ts as [|[a| |] ts]; try done.
  intros H _. apply lits_head in H as Hl. simpl in Hl. simpl.
  destruct (Ascii.eqb a ".") eqn:E; [done |].
  rewrite append_cons. simpl.
  destruct (literal_stages a Hl) as (-> & _ & _ & _ & _ & ->). done.
Qed.

Lemma parseSeq_regexSource ts : forall fuel,
  lits ts = true -> length ts < fuel ->
  Regex.parseSeq fuel false (regexSource ts +:+ "$") = Some (map node ts).
Proof.
  induction ts as [|t ts IH]; intros fuel H Hf.
  - destruct fuel; [lia | done].
  - destruct fuel as [|fuel]; [simpl in Hf; lia |].
    pose proof (lits_tail t ts H) as Hw.
    assert (Hq : noQuantifier (regexSource ts +:+ "$") = true)
      by (by apply regexSource_noQuantifier).
    simpl in Hf. simpl regexSource. rewrite string_app_assoc.
    destruct t as [a| |]; simpl regexOfTok.
    + apply lits_head in H as Hl. simpl in Hl.
      destruct (Ascii.eqb a ".") eqn:E.
      * apply eqb_dot in E as ->.
        rewrite (parseSeq_char fuel _ (Regex.CsChar ".") (regexSource ts +:+ "$"));
          [| done | done | done].
        rewrite IH by (done || lia). done.
      * rewrite append_cons, append_nil_l.
        destruct (literal_stages a Hl) as (_ & _ & H1 & H2 & H3 & _).
        rewrite (parseSeq_char fuel _ (Regex.CsChar a) (regexSource ts +:+ "$"));
          [| by apply literal_atom | done | done].
        rewrite IH by (done || lia). done.
    + rewrite (parseSeq_star fuel _ noSep (regexSource ts +:+ "$")); [| done | done].
      rewrite IH by (done || lia). done.
    + rewrite (parseSeq_char fuel _ noSep (regexSource ts +:+ "$"));
        [| done | done | done].
      rewrite IH by (done || lia). done.
Qed.

Lemma string_length_app (a b : string) :
  String.length (a +:+ b) = String.length a + String.length b.
Proof. induction a as [|x a IH]; [done |]. rewrite append_cons. simpl. by rewrite IH. Qed.

Lemma regexSource_length ts : length ts <= String.length (regexSource ts).
Proof.
  induction ts as [|t ts IH]; [simpl; lia |].
  cbn [regexSource length]. rewrite string_length_app.
  assert (1 <= String.length (regexOfTok t)).
  { destruct t as [a| |]; simpl; try lia. destruct (Ascii.eqb a "."); simpl; lia. }
  lia.
Qed.

Lemma compile_render ts :
  lits ts = true ->
  Regex.compile ("^" +:+ globToRegexSource (render ts) +:+ "$")
    = Some (map node (desugar ts)).
Proof.
  intros H. rewrite (globToRegexSource_render ts H).
  pose proof (lits_desugar (length ts) ts (le_n _) H) as Hd.
  change ("^" +:+ regexSource (desugar ts) +:+ "$")
    with (String "^" (regexSource (desugar ts) +:+ "$")).
  cbn [Regex.compile]. apply parseSeq_regexSource; [done |].
  rewrite string_length_app. pose proof (regexSource_length (desugar ts)). simpl. lia.
Qed.

(** *** Running the compiled pattern *)

Lemma exec_star_flat r s cur caps :
  is_Some (Regex.exec (Regex.NStar noSep :: r) s cur caps) <->
  exists stem rest,
    s = stem +:+ rest /\ flat stem = true /\ is_Some (Regex.exec r rest cur caps).
Proof.
  split.
  - induction s as [|a s IH]; rewrite exec_star_eq; intros H.
    + by exists EmptyString, EmptyString.
    + rewrite accepts_noSep in H.
      destruct (Ascii.eqb a sep) eqn:E; cbn [negb] in H;
        [exists EmptyString, (String a s); by rewrite append_nil_l |].
      destruct (Regex.exec (Regex.NStar noSep :: r) s cur caps) eqn:E';
        [| exists EmptyString, (String a s); by rewrite append_nil_l].
      destruct IH as (stem & rest & -> & Hf & Hr); [done |].
      exists (String a stem), rest. split; [done |]. split; [| done].
      simpl. by rewrite E.
  - intros (stem & rest & -> & Hf & Hr).
    induction stem as [|a stem IH].
    + rewrite append_nil_l. rewrite exec_star_eq.
      destruct rest as [|b rest]; [done |].
      destruct (Regex.accepts noSep b); [| done].
      by destruct (Regex.exec (Regex.NStar noSep :: r) rest cur caps).
    + simpl in Hf. apply andb_true_iff in Hf as [Ha Hf].
      rewrite append_cons, exec_star_eq, accepts_noSep, Ha.
      destruct (IH Hf) as [out ->]. done.
Qed.

Lemma exec_tokens ts : forall path cur caps,
  is_Some (Regex.exec (map node ts) path cur caps) <-> Matches ts path.
Proof.
  induction ts as [|t ts IH]; intros path cur caps.
  - simpl. split.
    + destruct path; [constructor | by intros [? ?]].
    + inversion 1. done.
  - destruct t as [a| |]; cbn [map node].
    + split.
      * simpl. destruct path as [|b path]; [by intros [? ?] |].
        destruct (Ascii.eqb b a) eqn:E; [| by intros [? ?]].
        apply Ascii.eqb_eq in E as ->. intros H. constructor. by apply (IH path cur caps).
      * inversion 1; subst. simpl. rewrite Ascii.eqb_refl. by apply IH.
    + rewrite exec_star_flat. split.
      * intros (stem & rest & -> & Hf & Hr). constructor; [done |].
        by apply (IH rest cur caps).
      * inversion 1; subst. eexists _, _. split; [done |]. split; [done |]. by apply IH.
    + split.
      * cbn [Regex.exec]. destruct path as [|b path]; [by intros [? ?] |].
        rewrite accepts_noSep.
        destruct (Ascii.eqb b sep) eqn:E; [by intros [? ?] |].
        simpl. intros H. constructor; [done |]. by apply (IH path cur caps).
      * inversion 1; subst. cbn [Regex.exec]. rewrite accepts_noSep.
        match goal with H : Ascii.eqb _ sep = false |- _ => rewrite H end.
        simpl. by apply IH.
Qed.

(** *** The matcher *)

Lemma matchesPattern_render (P : Platform) ts path :
  lits ts = true ->
  exists b,
    matchesPattern P path (render ts) = Ok b /\
    (b = true <-> Matches (desugar ts) path).
Proof.
  intros H. unfold matchesPattern. rewrite (compile_render ts H).
  eexists. split; [done |].
  rewrite bool_decide_eq_true. apply exec_tokens.
Qed.

Lemma render_tokens s : plain s = true -> render (tokens s) = s.
Proof.
  induction s as [|a s IH]; [done |]. cbn [plain tokens]. intros H.
  apply andb_true_iff in H as [_ H]. rewrite render_cons, (IH H).
  unfold tokOf. destruct (Ascii.eqb a "*") eqn:E1;
    [by apply Ascii.eqb_eq in E1 as -> |].
  destruct (Ascii.eqb a "?") eqn:E2; [by apply Ascii.eqb_eq in E2 as -> | done].
Qed.

Lemma lits_tokens s : plain s = true -> lits (tokens s) = true.
Proof.
  induction s as [|a s IH]; [done |]. simpl. intros H.
  apply andb_true_iff in H as [Ha H]. unfold lits. simpl.
  apply andb_true_iff. split; [| exact (IH H)].
  unfold tokOf. destruct (Ascii.eqb a "*"); [done |].
  destruct (Ascii.eqb a "?"); [done |]. simpl.
  by rewrite !orb_false_r in Ha.
Qed.

(** X1.  On a pattern whose characters stand for themselves, apart from
    stars and question marks, where no star follows a star, the matcher
    answers (it does not throw) and accepts exactly the paths the pattern
    stands for: a star is a stretch without separator, possibly empty, a
    question mark is one character other than the separator, and every
    other character is itself. *)
Theorem matchesPattern_single_star (P : Platform) ts path :
  wellFormed ts = true ->
  exists b,
    matchesPattern P path (render ts) = Ok b /\ (b = true <-> Matches ts path).
Proof.
  intros H.
  destruct (matchesPattern_render P ts path (wellFormed_lits ts H)) as (b & Hb & Hm).
  rewrite (desugar_wellFormed ts H) in Hm. by exists b.
Qed.

Lemma matchesPattern_single_star_witness :
  let ts := tokens "docs/*.md" in
  wellFormed ts = true /\
  exists b,
    matchesPattern Sim.platform "docs/file.md" (render ts) = Ok b /\
    (b = true <-> Matches ts "docs/file.md").
Proof.
  intros ts. split; [reflexivity |].
  apply (matchesPattern_single_star Sim.platform ts "docs/file.md"). reflexivity.
Defined.

(** X2.  On every pattern made of literal characters, stars and question
    marks the matcher answers, and what it accepts is what the pattern
    stands for once each two stars in a row, taken from the left, are
    read as a dot followed by a star: a doubled star does not cross
    directories, it asks for a dot where it stands. *)
Theorem matchesPattern_plain (P : Platform) pattern path :
  plain pattern = true ->
  exists b,
    matchesPattern P path pattern = Ok b /\
    (b = true <-> Matches (desugar (tokens pattern)) path).
Proof.
  intros H.
  destruct (matchesPattern_render P (tokens pattern) path (lits_tokens _ H))
    as (b & Hb & Hm).
  rewrite (render_tokens _ H) in Hb. by exists b.
Qed.

Lemma matchesPattern_plain_witness :
  plain "**/*.md" = true /\
  exists b,
    matchesPattern Sim.platform "docs/file.md" "**/*.md" = Ok b /\
    (b = true <-> Matches (desugar (tokens "**/*.md")) "docs/file.md").
Proof.
  split; [reflexivity |].
  apply (matchesPattern_plain Sim.platform "**/*.md" "docs/file.md"). reflexivity.
Defined.

End GlobSemantics.


(** ** Walking the documentation tree *)

Section Walk.

Context (P : Platform).

Lemma traverse_filter pattern (f : string -> bool) :
  (forall path, matchesPattern P path pattern = Ok (f path)) ->
  forall prefix dir files,
    traverse P pattern prefix dir files =
    match firstFailure dir with
    | Some e => Throw e
    | None => Ok (files ++ List.filter f (filesUnder prefix dir))
    end.
Proof.
  intros Hf. fix IH 2. intros prefix [entries | e] files; [| done].
  cbn [traverse firstFailure filesUnder]. revert files.
  induction entries as [|[name | name sub] rest IHr]; intros files.
  - by rewrite app_nil_r.
  - rewrite Hf. cbn [List.filter].
    destruct (f (relativeTo prefix name)); rewrite IHr; [| done].
    destruct (_ rest); [done |]. by rewrite <- app_assoc.
  - rewrite (IH (relativeTo prefix name) sub files).
    destruct (firstFailure sub); [done |]. rewrite IHr.
    destruct (_ rest); [done |]. by rewrite List.filter_app, app_assoc.
Qed.

(** X3.  When the matcher answers on every path, the search under a
    directory fails with the error of the first directory that cannot be
    listed, whatever was found before; otherwise it returns the files of
    the tree that the matcher accepts, named from the base directory, in
    the order of a depth-first walk, each as often as it is listed. *)
Theorem glob_result pattern basePath (f : string -> bool) (s : Sys P) :
  (forall path, matchesPattern P path pattern = Ok (f path)) ->
  (glob P pattern basePath s).1 =
  let tree := (fs_readdir P basePath (world P s)).1 in
  match firstFailure tree with
  | Some e => Throw e
  | None => Ok (List.filter f (filesUnder "" tree))
  end.
Proof.
  intros Hf. unfold glob, request, mbind, M_bind. simpl.
  destruct (fs_readdir P basePath (world P s)) as [tree w]. simpl.
  by rewrite (traverse_filter pattern f Hf).
Qed.

Lemma processValidate_result pattern (s : Sys P) :
  (processValidate P pattern s).1 =
  let root := fs_access P "documentation" (world P s) in
  root.1 &&
  match traverse P pattern "" (fs_readdir P "documentation" root.2).1 [] with
  | Ok files => negb (Nat.eqb (length files) 0)
  | Throw _ => false
  end.
Proof.
  unfold processValidate, glob, request, console_error, console_log, emit,
    mbind, M_bind. simpl.
  destruct (fs_access P "documentation" (world P s)) as [[] w]; simpl; [| done].
  destruct (fs_readdir P "documentation" w) as [tree w']. simpl.
  destruct (traverse P pattern "" tree []) as [files | e]; [| done].
  by destruct (length files).
Qed.

(** X4.  For a pattern made of literal characters, stars and question
    marks, validation succeeds exactly when the documentation directory
    exists, every directory under it can be listed, and some file under
    it has a path, from the documentation directory, that the pattern
    accepts. *)
Theorem processValidate_outcome pattern (s : Sys P) :
  Glob.plain pattern = true ->
  let root := fs_access P "documentation" (world P s) in
  let tree := (fs_readdir P "documentation" root.2).1 in
  (processValidate P pattern s).1 = true <->
  root.1 = true /\ firstFailure tree = None /\
  exists path,
    path ∈ filesUnder "" tree /\
    Glob.Matches (Glob.desugar (Glob.tokens pattern)) path.
Proof.
  intros Hp root tree. rewrite processValidate_result. fold root. fold tree.
  set (f := fun path =>
    bool_decide (is_Some (Regex.run (map Glob.node (Glob.desugar (Glob.tokens pattern))) path))).
  assert (Hf : forall path, matchesPattern P path pattern = Ok (f path)).
  { intros path. unfold matchesPattern.
    rewrite <- (render_tokens pattern Hp) at 1.
    by rewrite (compile_render _ (lits_tokens pattern Hp)). }
  assert (Hm : forall path, f path = true <->
                 Glob.Matches (Glob.desugar (Glob.tokens pattern)) path).
  { intros path. unfold f. rewrite bool_decide_eq_true. apply exec_tokens. }
  cbn zeta. rewrite (traverse_filter pattern f Hf). fold tree.
  clearbody tree. clearbody root. destruct root as [[] w]; simpl;
    [| by split; [| intros [? _]]].
  destruct (firstFailure tree); [by split; [| intros (_ & ? & _)] |].
  split.
  - intros H. split; [done |]. split; [done |].
    destruct (List.filter f (filesUnder "" tree)) as [|path rest] eqn:E; [done |].
    assert (Hin : List.In path (List.filter f (filesUnder "" tree)))
      by (rewrite E; by left).
    apply List.filter_In in Hin as [Hin Hacc].
    exists path. split; [by apply list_elem_of_In | by apply Hm].
  - intros (_ & _ & path & Hin & Hacc).
    assert (Hin' : List.In path (List.filter f (filesUnder "" tree))).
    { apply List.filter_In. split; [by apply list_elem_of_In | by apply Hm]. }
    by destruct (List.filter f (filesUnder "" tree)).
Qed.

End Walk.

Lemma glob_result_witness :
  let f := fun path =>
    bool_decide (is_Some (Regex.run (map Glob.node (Glob.tokens "*.md")) path)) in
  (forall path, matchesPattern Sim.platform path "*.md" = Ok (f path)) /\
  (glob Sim.platform "*.md" "documentation" (Sim.start Docs.documented)).1
    = Ok ["README.md"; "guide.md"].
Proof.
  intros f.
  assert (Hf : forall path, matchesPattern Sim.platform path "*.md" = Ok (f path)).
  { intros path. unfold matchesPattern.
    change "*.md" with (Glob.render (Glob.tokens "*.md")).
    by rewrite (compile_render (Glob.tokens "*.md") eq_refl). }
  split; [exact Hf |].
  rewrite (glob_result Sim.platform "*.md" "documentation" f
             (Sim.start Docs.documented) Hf).
  vm_compute. reflexivity.
Defined.

Lemma processValidate_outcome_witness :
  Glob.plain "api/*.md" = true /\
  (processValidate Sim.platform "api/*.md" (Sim.start Docs.documented)).1 = true.
Proof.
  split; [reflexivity |].
  pose proof (processValidate_outcome Sim.platform "api/*.md"
                (Sim.start Docs.documented) eq_refl) as H.
  cbn zeta in H. apply H.
  split; [reflexivity |]. split; [reflexivity |].
  exists "api/index.md". split.
  - apply list_elem_of_In. vm_compute. tauto.
  - do 4 apply Glob.matches_lit.
    apply (Glob.matches_star "index" _ ".md"); [reflexivity |].
    repeat constructor.
Defined.

(** ** What the ledger holds *)

(** A relation that every framed step and every fetch keeps holds along
    the dispatch, the loop and the whole run. *)
Section Handlers.

Context {P : Platform}.
Variable R : Sys P -> Sys P -> Prop.
Hypothesis R_refl : forall s, R s s.
Hypothesis R_trans : forall a b c, R a b -> R b c -> R a c.
Hypothesis R_framed : forall s s', framed s s' -> R s s'.
Hypothesis R_download : forall url, steps R (processDownload P url).

Lemma handlers_console lvl args : steps R (emit P (Console lvl args)).
Proof using R_framed. intros s. apply R_framed, framed_console. Qed.

Lemma handlers_enter m arg : steps R (emit P (Enter m arg)).
Proof using R_framed. intros s. apply R_framed, framed_enter. Qed.

Lemma handlers_processDirective d : steps R (processDirective P d).
Proof using R_refl R_trans R_framed R_download.
  unfold processDirective.
  apply (steps_bind R R_trans); [apply (steps_console_log R handlers_console) |].
  intros _.
  repeat case_match.
  - apply (steps_bind R R_trans); [apply R_download | intros ?; apply steps_ret, R_refl].
  - intros s. apply R_framed, processUnzip_framed.
  - apply (steps_bind R R_trans); [| intros ?; apply steps_ret, R_refl].
    intros s. apply R_framed, processValidate_framed.
  - apply (steps_bind R R_trans); [| intros ?; apply steps_ret, R_refl].
    intros s. apply R_framed, processImplement_framed.
  - apply (steps_bind R R_trans); [| intros ?; apply steps_ret, R_refl].
    apply (steps_console_error R handlers_console).
Qed.

Lemma handlers_workflowFailed e : steps R (workflowFailed P e).
Proof using R_refl R_trans R_framed.
  apply (steps_workflowFailed R R_refl R_trans handlers_console handlers_enter).
Qed.

Lemma handlers_runDirectives ds : steps R (runDirectives P ds).
Proof using R_refl R_trans R_framed R_download.
  induction ds as [|d ds IH]; simpl; [apply steps_ret, R_refl |].
  apply (steps_bind R R_trans); [apply handlers_processDirective |].
  intros [[]|e]; [exact IH | | apply handlers_workflowFailed].
  apply (steps_bind R R_trans); [| intros ?; apply steps_ret, R_refl].
  apply (steps_console_error R handlers_console).
Qed.

Lemma handlers_processWorkflow : steps R (processWorkflow P).
Proof using R_refl R_trans R_framed R_download.
  unfold processWorkflow.
  apply (steps_bind R R_trans);
    [intros s; apply R_framed, parseImplementationPlan_framed |].
  intros [ds | e]; [| apply handlers_workflowFailed].
  case_match; [| apply handlers_runDirectives].
  apply (steps_bind R R_trans); [apply (steps_console_log R handlers_console) |].
  intros _. apply (steps_runFallbackFlow R R_refl R_trans handlers_console handlers_enter).
Qed.

End Handlers.

Section LedgerRecords.

Context {P : Platform}.

Lemma extends_refl (s : Sys P) : extends s s.
Proof. intros H. split; [done |]. exists []. by rewrite app_nil_r. Qed.

Lemma extends_trans (a b c : Sys P) : extends a b -> extends b c -> extends a c.
Proof.
  intros Hab Hbc Ha. destruct (Hab Ha) as (Hb & rs & E1 & F1).
  destruct (Hbc Hb) as (Hc & rs' & E2 & F2). split; [done |].
  exists (rs ++ rs'). split; [by rewrite E2, E1, app_assoc | by apply Forall_app].
Qed.

Lemma extends_framed (s s' : Sys P) : framed s s' -> extends s s'.
Proof.
  intros Hf Ha. destruct (framed_history s s' Ha Hf) as [E Hb].
  split; [done |]. exists []. by rewrite app_nil_r.
Qed.

Lemma processDownload_records url (s : Sys P) :
  exists rs,
    history P (processDownload P url s).2 = history P s ++ rs /\
    Forall consistent rs.
Proof.
  unfold processDownload, mbind, M_bind, request. simpl.
  destruct (axios_get P url (world P s)) as [o w] eqn:E. simpl.
  set (s1 := mkSys P w _ _ _ _).
  assert (H1 : history P s1 = history P s) by done. clearbody s1.
  destruct o as [h body|e|e]; [simpl | |].
  - rewrite <- H1. clear H1 E.
    set (ct := match h with Some h0 => h0 | None => "" end).
    assert (SUCC : forall s0, history P s0 = history P s1 ->
              exists rs,
                history P (downloadSucceeded P url body ct s0).2 = history P s1 ++ rs /\
                Forall consistent rs).
    { intros s0 H0. eexists. rewrite downloadSucceeded_history, H0.
      split; [done |]. by repeat constructor. }
    destruct (Str.includes ct "application/json"); [| by apply SUCC].
    destruct (JSON_parse P (Buffer_toString P body)) as [j|]; [| by apply SUCC].
    destruct (expiryCheck P j) as [instr| |]; [| by apply SUCC | by apply SUCC].
    exists [mkDownloadResult url None ct true instr].
    split; [| by repeat constructor].
    destruct instr as [v|]; [destruct (truthy P v) |]; simpl;
      unfold history, contents; simpl; by rewrite lookup_insert_eq.
  - exists []. rewrite app_nil_r. split; [| done].
    rewrite <- H1. apply (downloadFailed_history (AxiosRejected e) s1).
  - exists []. rewrite app_nil_r. split; [| done].
    rewrite <- H1. apply (downloadFailed_history (OtherRejected e) s1).
Qed.

Lemma processDownload_keeps url (s : Sys P) :
  keepsLedger s (processDownload P url s).2.
Proof.
  apply (steps_processDownload keepsLedger);
    first [ exact (fun (s : Sys P) (H : ledgerAllocated s) => H)
          | exact keepsLedger_trans
          | intros ? ?; apply keepsLedger_emit | exact keepsLedger_request
          | exact keepsLedger_push ].
Qed.

Lemma extends_download url : steps (@extends P) (processDownload P url).
Proof.
  intros s Ha. split; [by apply processDownload_keeps |].
  apply processDownload_records.
Qed.

Lemma mutateArray_history l f (s : Sys P) :
  l <> this_downloadHistory P s -> history P (mutateArray l f s).2 = history P s.
Proof.
  intros Hl. unfold history, contents, mutateArray, mbind, M_bind. simpl.
  by rewrite lookup_insert_ne.
Qed.

Lemma driven_reachable (s : Sys P) : driven s -> reachable s.
Proof.
  induction 1 as [root w | c s _ IH | l f s _ IH Hl].
  - apply reachable_new.
  - by apply reachable_call.
  - by apply reachable_mutate.
Qed.

(** No method alters or removes a record, short of emptying the ledger:
    a call appends consistent records, or none, or leaves the ledger
    empty. *)
Lemma perform_appends c (s : Sys P) :
  ledgerAllocated s ->
  history P (perform c s) = [] \/
  exists rs, history P (perform c s) = history P s ++ rs /\ Forall consistent rs.
Proof.
  intros Ha.
  assert (Hext : extends s (perform c s) ->
                 exists rs, history P (perform c s) = history P s ++ rs /\
                            Forall consistent rs).
  { intros He. destruct (He Ha) as (_ & rs & Hrs). by exists rs. }
  destruct c; cbn [perform] in *.
  - right. apply Hext, handlers_processWorkflow;
      first [ exact extends_refl | exact extends_trans
            | exact extends_framed | exact extends_download ].
  - right. apply Hext, extends_framed, parseImplementationPlan_framed.
  - right. apply Hext, handlers_processDirective;
      first [ exact extends_refl | exact extends_trans
            | exact extends_framed | exact extends_download ].
  - right. apply Hext, extends_download.
  - right. apply Hext, extends_framed, processUnzip_framed.
  - right. apply Hext, extends_framed, processValidate_framed.
  - right. apply Hext, extends_framed, processImplement_framed.
  - right. apply Hext, extends_framed.
    apply (steps_runFallbackFlow framed framed_refl framed_trans framed_console).
    intros m arg s0. apply framed_enter.
  - right. apply Hext, extends_framed, framed_copy.
  - left. apply clearDownloadHistory_history.
Qed.

(** X5.  As long as the client of a manager writes to no field of a
    record it got from [getDownloadHistory], every record of the ledger
    either holds a payload, is not marked expired and carries no
    instructions, or holds no payload and is marked expired; so the
    extraction step finds no payload in the latest record exactly when
    that record stands for an expired link.  The methods themselves keep
    it so: a call appends such records, or none, or empties the ledger,
    and never alters a record. *)
Theorem ledger_records_consistent (s : Sys P) :
  driven s ->
  reachable s /\
  Forall consistent (history P s) /\
  (forall latest,
     last (history P s) = Some latest ->
     (violation (history P s) = Some PayloadAbsent <-> isExpired latest = true)) /\
  (forall c,
     history P (perform c s) = [] \/
     exists rs, history P (perform c s) = history P s ++ rs /\ Forall consistent rs).
Proof.
  intros Hd. pose proof (driven_reachable s Hd) as Hr.
  split; [done |].
  assert (Hall : Forall consistent (history P s)).
  { clear Hr. induction Hd as [root w | c s Hd IH | l f s Hd IH Hl].
    - unfold history, contents. simpl. by rewrite lookup_singleton_eq.
    - pose proof (reachable_allocated s (driven_reachable s Hd)) as Ha.
      destruct (perform_appends c s Ha) as [-> | (rs & -> & Hrs)]; [done |].
      by apply Forall_app.
    - by rewrite mutateArray_history. }
  split; [done |]. split.
  - intros latest Hlast. unfold violation. rewrite Hlast.
    assert (Hc : consistent latest).
    { apply last_Some in Hlast as [front E]. rewrite E in Hall.
      apply Forall_app in Hall as [_ Hl]. by inversion Hl. }
    unfold consistent in Hc. destruct (data latest).
    + destruct Hc as [-> _]. destruct (indicatesArchive _); by split.
    + by rewrite Hc.
  - intros c. apply perform_appends. by apply reachable_allocated.
Qed.

End LedgerRecords.

Lemma ledger_records_consistent_witness :
  let s := perform (CallProcessDownload "https://x/expired.zip")
             (perform (CallProcessDownload "https://x/doc.zip")
                (Sim.start Scenario.failing)) in
  driven s /\ Forall consistent (history Sim.platform s).
Proof.
  intros s.
  assert (Hd : driven s) by (do 2 apply driven_call; apply driven_new).
  split; [exact Hd |].
  exact (proj1 (proj2 (ledger_records_consistent s Hd))).
Defined.

(** The proviso is needed: a client that takes the history and sets the
    [data] of its records to [null] reaches a state in which a record
    that is not marked expired holds no payload. *)
Lemma record_write_breaks_consistency :
  let P := Sim.platform in
  let s := perform (CallProcessDownload "https://x/doc.zip")
             (Sim.start Scenario.failing) in
  let s' := writeRecords dropPayloads (perform CallGetDownloadHistory s) in
  reachable s' /\
  history P s' = [mkDownloadResult "https://x/doc.zip" None "application/zip" false None] /\
  violation (history P s') = Some PayloadAbsent /\
  ~ Forall consistent (history P s').
Proof.
  intros P s s'.
  assert (Hh : history P s'
               = [mkDownloadResult "https://x/doc.zip" None "application/zip" false None])
    by (vm_compute; reflexivity).
  split; [apply reachable_write; do 2 apply reachable_call; apply reachable_new |].
  split; [exact Hh |]. rewrite Hh. split; [reflexivity |].
  intros H. inversion H as [|r rs Hc _]. subst. by cbv in Hc.
Qed.

(** ** Extraction when its preconditions hold *)

Section Extraction.

Context {P : Platform}.

Lemma processUnzip_plan (targetPath : string) (s : Sys P)
    (latest : DownloadResult (Num P)) (bytes : Buffer) :
  last (history P s) = Some latest ->
  data latest = Some bytes ->
  indicatesArchive (contentType latest) = true ->
  exists evs,
    trace P (processUnzip P targetPath s).2 = trace P s ++ evs /\
    goesAhead (orDefault targetPath "documentation") bytes (world P s) evs
      (processUnzip P targetPath s).1.
Proof.
  intros Hlast Hdata Harch.
  unfold history, contents in Hlast. unfold goesAhead.
  unfold processUnzip, getDownloadHistory, mbind, M_bind. simpl.
  unfold contents. simpl. rewrite lookup_insert_eq. simpl.
  rewrite Hlast, Hdata, Harch. simpl.
  set (destination := orDefault targetPath "documentation").
  set (tempZipPath := path_join P [destination; "temp_download.zip"]).
  unfold request. simpl.
  destruct (fs_mkdir P destination (world P s)) as [[e1|] w1]; simpl.
  { eexists. rewrite <- !app_assoc. by repeat split. }
  destruct (fs_writeFile P tempZipPath bytes w1) as [[e2|] w2]; simpl.
  { eexists. rewrite <- !app_assoc. by repeat split. }
  destruct (yauzl_open P tempZipPath w2) as [[e3|] w3]; simpl.
  { eexists. rewrite <- !app_assoc. by repeat split. }
  destruct (yauzl_entries P tempZipPath destination w3) as [r w4]; simpl.
  eexists. rewrite <- !app_assoc. by repeat split.
Qed.

Lemma processUnzip_refuses (targetPath : string) (s : Sys P)
    (latest : DownloadResult (Num P)) (bytes : Buffer) :
  last (history P s) = Some latest ->
  data latest = Some bytes ->
  indicatesArchive (contentType latest) = false ->
  (processUnzip P targetPath s).1 = Ok false /\
  exists evs,
    trace P (processUnzip P targetPath s).2 = trace P s ++ evs /\
    requests evs = [].
Proof.
  intros Hlast Hdata Harch.
  unfold history, contents in Hlast.
  unfold processUnzip, getDownloadHistory, mbind, M_bind. simpl.
  unfold contents. simpl. rewrite lookup_insert_eq. simpl.
  rewrite Hlast, Hdata, Harch. simpl. split; [done |].
  eexists. rewrite <- !app_assoc. by split.
Qed.

(** X6.  When the latest ledger record holds a payload whose media type
    indicates an archive, extraction goes ahead with the payload of that
    record: it creates the destination (the target path, or
    [documentation] for an empty one), and if that succeeds writes the
    payload to [temp_download.zip] under the destination, and if that
    succeeds opens that file, and if that succeeds has its entries read
    and returns what the reading gives.  It makes these requests in this
    order and no other; the first of the first three that fails is the
    last request made, its error is the one line of error output, and the
    result is false instead of a rejection. *)
Theorem unzip_writes_latest (targetPath : string) (s : Sys P)
    (latest : DownloadResult (Num P)) (bytes : Buffer) :
  last (history P s) = Some latest ->
  data latest = Some bytes ->
  indicatesArchive (contentType latest) = true ->
  exists evs,
    trace P (processUnzip P targetPath s).2 = trace P s ++ evs /\
    goesAhead (orDefault targetPath "documentation") bytes (world P s) evs
      (processUnzip P targetPath s).1.
Proof. apply processUnzip_plan. Qed.

End Extraction.

Lemma unzip_writes_latest_witness :
  let P := Sim.platform in
  let s := (processDownload P "https://x/doc.zip" (Sim.start Scenario.failing)).2 in
  let latest := mkDownloadResult "https://x/doc.zip" (Some "PK-archive-bytes")
                  "application/zip" false None in
  last (history P s) = Some latest /\
  exists evs,
    trace P (processUnzip P "out" s).2 = trace P s ++ evs /\
    requests evs = [Mkdir "out"; WriteFile "out/temp_download.zip" "PK-archive-bytes";
                    ZipOpen "out/temp_download.zip";
                    ZipEntries "out/temp_download.zip" "out"] /\
    (processUnzip P "out" s).1 = Ok true.
Proof.
  intros P s latest.
  assert (H : last (history P s) = Some latest) by (vm_compute; reflexivity).
  split; [exact H |].
  destruct (unzip_writes_latest "out" s latest "PK-archive-bytes" H eq_refl eq_refl)
    as (evs & Ht & Hq & Hr).
  exists evs. split; [exact Ht |]. split; [exact Hq | exact Hr].
Defined.

(** ** Failure and error output *)

Section Reports.

Context {P : Platform}.

Lemma processDownload_report url (s : Sys P) :
  exists evs,
    trace P (processDownload P url s).2 = trace P s ++ evs /\
    requests evs = [HttpGet url] /\
    ((processDownload P url s).1 = true <-> errors evs = []).
Proof.
  unfold processDownload, downloadSucceeded, downloadFailed, pushDownload,
    array_push, mbind, M_bind, request. simpl.
  destruct (axios_get P url (world P s)) as [[h body|e|e] w]; simpl.
  - destruct (Str.includes _ "application/json"); simpl;
      [| eexists; rewrite <- !app_assoc; by repeat split].
    destruct (JSON_parse P (Buffer_toString P body)) as [j|]; simpl;
      [| eexists; rewrite <- !app_assoc; by repeat split].
    destruct (expiryCheck P j) as [[v|]| |]; simpl;
      [destruct (truthy P v); simpl | | |];
      eexists; rewrite <- !app_assoc; by repeat split.
  - destruct (ax_response e) as [[status statusText]|]; [| destruct (ax_request e)];
      simpl; (destruct (ax_code e) as [c|]; [destruct (String.eqb c "ECONNABORTED") |]);
      simpl; eexists; rewrite <- !app_assoc; by repeat split.
  - eexists; rewrite <- !app_assoc; by repeat split.
Qed.

Lemma processValidate_report pattern (s : Sys P) :
  exists evs,
    trace P (processValidate P pattern s).2 = trace P s ++ evs /\
    ((processValidate P pattern s).1 = true <-> errors evs = []).
Proof.
  unfold processValidate, glob, mbind, M_bind, request. simpl.
  destruct (fs_access P "documentation" (world P s)) as [[] w]; simpl;
    [| eexists; rewrite <- !app_assoc; by repeat split].
  destruct (fs_readdir P "documentation" w) as [tree w']; simpl.
  destruct (traverse P pattern "" tree []) as [files|e]; simpl;
    [destruct (length files); simpl |];
    eexists; rewrite <- !app_assoc; by repeat split.
Qed.

(** X7.  A fetch makes one request, for the address it was given, and
    nothing else; and a fetch, like a validation, returns false exactly
    when it has written to the error output. *)
Theorem failure_is_reported url pattern (s : Sys P) :
  (exists evs,
     trace P (processDownload P url s).2 = trace P s ++ evs /\
     requests evs = [HttpGet url] /\
     ((processDownload P url s).1 = false <-> errors evs <> [])) /\
  (exists evs,
     trace P (processValidate P pattern s).2 = trace P s ++ evs /\
     ((processValidate P pattern s).1 = false <-> errors evs <> [])).
Proof.
  split.
  - destruct (processDownload_report url s) as (evs & Ht & Hq & Hr).
    exists evs. split; [done |]. split; [done |].
    destruct (processDownload P url s).1; split; try done.
    + intros He. by destruct He; apply Hr.
    + intros _ He. by apply Hr in He.
  - destruct (processValidate_report pattern s) as (evs & Ht & Hr).
    exists evs. split; [done |].
    destruct (processValidate P pattern s).1; split; try done.
    + intros He. by destruct He; apply Hr.
    + intros _ He. by apply Hr in He.
Qed.

(** X8.  Running a script asks whether [docs/scripts/<script>.js] exists
    and, only if it does, runs [node] on that path; the step succeeds
    exactly when the file exists and the process exits normally, so a
    script that writes to its error stream has that output reported as an
    error and still counts as a success. *)
Theorem processImplement_outcome script (s : Sys P) :
  let scriptPath := path_join P ["docs"; "scripts"; script +:+ ".js"] in
  let command := "node " +:+ scriptPath in
  let found := fs_access P scriptPath (world P s) in
  let ran := (child_exec P command found.2).1 in
  exists evs,
    trace P (processImplement P script s).2 = trace P s ++ evs /\
    requests evs = (if found.1 then [Access scriptPath; Exec command]
                    else [Access scriptPath]) /\
    ((processImplement P script s).1 = true <->
       found.1 = true /\ exists stdout stderr, ran = ExecOk stdout stderr) /\
    (forall stdout stderr,
       found.1 = true -> ran = ExecOk stdout stderr -> stderr <> "" ->
       (processImplement P script s).1 = true /\
       errors evs = [[PStr ("Script errors:" +:+ Str.nl +:+ stderr)]]).
Proof.
  intros scriptPath command found ran.
  unfold processImplement, mbind, M_bind, request. simpl.
  fold scriptPath. fold found. subst ran. fold command.
  destruct found as [[] w]; simpl.
  - destruct (child_exec P command w) as [[out err | code msg out err] w']; simpl.
    + assert (Herr : forall stderr, ExecOk out err = ExecOk out stderr ->
                       stderr <> "" -> String.eqb err "" = false).
      { intros ? [= <-] ?. by apply String.eqb_neq. }
      destruct (String.eqb out ""); destruct (String.eqb err "") eqn:E; simpl;
        eexists; rewrite <- !app_assoc; (split; [done |]); (split; [done |]);
        (split; [split; [intros _; split; [done | by eexists _, _] | done] |]);
        intros stdout stderr _ Hran Hne;
        pose proof (Herr stderr ltac:(by inversion Hran) Hne); try done;
        inversion Hran; by subst.
    + destruct (nonEmpty out); destruct (nonEmpty err); simpl;
        eexists; rewrite <- !app_assoc; (split; [done |]); (split; [done |]);
        (split; [split; [done | by intros (_ & ? & ? & ?)] | done]).
  - eexists. rewrite <- !app_assoc. split; [done |]. split; [done |].
    split; [split; [done | by intros [? _]] | done].
Qed.

End Reports.

(** ** From a fetch to the extraction *)

Section Composition.

Context {P : Platform}.

(** What one fetch returns and records, by the answer it got. *)
Lemma processDownload_outcome url (s : Sys P) :
  match (axios_get P url (world P s)).1 with
  | AxiosResponse header body =>
      let mediaType := default "" header in
      if (processDownload P url s).1
      then history P (processDownload P url s).2
           = history P s ++ [mkDownloadResult url (Some body) mediaType false None]
      else Str.includes mediaType "application/json" = true /\
           exists fields msg,
             JSON_parse P (Buffer_toString P body) = Some (JObject fields) /\
             getProp "message" fields = Some (JString msg) /\
             Str.includes (Str.toLowerCase msg) "url expired" = true /\
             history P (processDownload P url s).2
             = history P s ++ [mkDownloadResult url None mediaType true
                                 (getProp "instructions" fields)]
  | _ =>
      (processDownload P url s).1 = false /\
      history P (processDownload P url s).2 = history P s
  end.
Proof.
  unfold processDownload, downloadSucceeded, pushDownload, array_push,
    mbind, M_bind, request, history, contents. simpl.
  destruct (axios_get P url (world P s)) as [[h body|e|e] w]; simpl.
  - replace (match h with Some h0 => h0 | None => "" end) with (default "" h)
      by (by destruct h).
    set (ct := default "" h).
    destruct (Str.includes ct "application/json") eqn:Ej; simpl;
      [| by rewrite lookup_insert_eq].
    destruct (JSON_parse P (Buffer_toString P body)) as [j|] eqn:Ep; simpl;
      [| by rewrite lookup_insert_eq].
    destruct (expiryCheck P j) as [instr| |] eqn:Ex; simpl;
      [| by rewrite lookup_insert_eq | by rewrite lookup_insert_eq].
    assert (Hshape : exists fields msg,
              j = JObject fields /\
              getProp "message" fields = Some (JString msg) /\
              Str.includes (Str.toLowerCase msg) "url expired" = true /\
              instr = getProp "instructions" fields).
    { unfold expiryCheck in Ex. destruct j as [| | | |?|fields]; try done.
      destruct (getProp "message" fields) as [m|] eqn:Em; [| done].
      destruct (truthy P m); [| done]. destruct m as [| | |text| |]; try done.
      destruct (Str.includes (Str.toLowerCase text) "url expired") eqn:Ei; [| done].
      injection Ex as <-. by exists fields, text. }
    destruct Hshape as (fields & msg & -> & Hm & Hi & Hinstr).
    destruct instr as [v|]; [destruct (truthy P v) |]; simpl;
      (split; [done |]); exists fields, msg; rewrite <- Hinstr;
      (repeat split; try done); by rewrite lookup_insert_eq.
  - destruct (ax_response e) as [[status statusText]|]; [| destruct (ax_request e)];
      simpl; (destruct (ax_code e) as [c|]; [destruct (String.eqb c "ECONNABORTED") |]);
      by simpl.
  - done.
Qed.

(** X9.  A request that was answered makes the fetch fail in one case
    only: the media type contains [application/json], the body parses to
    an object, and its [message] is a string that contains, whatever the
    case of its letters, [url expired]. *)
Theorem answered_fetch_fails_only_when_expired url header body (s : Sys P) :
  (axios_get P url (world P s)).1 = AxiosResponse header body ->
  (processDownload P url s).1 = false ->
  Str.includes (default "" header) "application/json" = true /\
  exists fields msg,
    JSON_parse P (Buffer_toString P body) = Some (JObject fields) /\
    getProp "message" fields = Some (JString msg) /\
    Str.includes (Str.toLowerCase msg) "url expired" = true.
Proof.
  intros Hresp Hfalse. pose proof (processDownload_outcome url s) as H.
  rewrite Hresp, Hfalse in H. cbn zeta in H.
  destruct H as (Hj & fields & msg & Hp & Hm & Hi & _).
  split; [done |]. by exists fields, msg.
Qed.

(** X10.  After a fetch that reported success, the next extraction works
    on the very bytes of that response.  When the media type of the
    response indicates an archive it goes ahead with the body of the
    response: it creates the destination, writes the body to
    [temp_download.zip] under it, opens that file and has its entries
    read, each step only if the one before succeeded, and returns false
    at the first that fails.  Otherwise it returns false without a
    request to the platform. *)
Theorem fetched_bytes_are_extracted url targetPath header body (s : Sys P) :
  (axios_get P url (world P s)).1 = AxiosResponse header body ->
  (processDownload P url s).1 = true ->
  let s1 := (processDownload P url s).2 in
  exists evs,
    trace P (processUnzip P targetPath s1).2 = trace P s1 ++ evs /\
    if indicatesArchive (default "" header) then
      goesAhead (orDefault targetPath "documentation") body (world P s1) evs
        (processUnzip P targetPath s1).1
    else
      requests evs = [] /\ (processUnzip P targetPath s1).1 = Ok false.
Proof.
  intros Hresp Htrue s1.
  pose proof (processDownload_outcome url s) as H.
  rewrite Hresp, Htrue in H. cbn zeta in H. fold s1 in H.
  set (latest := mkDownloadResult url (Some body) (default "" header) false None) in H.
  assert (Hlast : last (history P s1) = Some latest) by (rewrite H; apply last_snoc).
  destruct (indicatesArchive (default "" header)) eqn:Ea.
  - apply (processUnzip_plan targetPath s1 latest body Hlast eq_refl Ea).
  - destruct (processUnzip_refuses targetPath s1 latest body Hlast eq_refl Ea)
      as (Hr & evs & Ht & Hq).
    by exists evs.
Qed.

End Composition.

Lemma answered_fetch_fails_only_when_expired_witness :
  let P := Sim.platform in
  let s := Sim.start Scenario.failing in
  (processDownload P "https://x/expired.zip" s).1 = false /\
  exists fields msg,
    JSON_parse P (Buffer_toString P Sim.expiredBody) = Some (JObject fields) /\
    getProp "message" fields = Some (JString msg) /\
    Str.includes (Str.toLowerCase msg) "url expired" = true.
Proof.
  intros P s.
  assert (H : (processDownload P "https://x/expired.zip" s).1 = false)
    by (vm_compute; reflexivity).
  split; [exact H |].
  exact (proj2 (answered_fetch_fails_only_when_expired (P := P)
                  "https://x/expired.zip" (Some "application/json") Sim.expiredBody s
                  eq_refl H)).
Defined.

Lemma fetched_bytes_are_extracted_witness :
  let P := Sim.platform in
  let s := Sim.start Scenario.failing in
  let s1 := (processDownload P "https://x/doc.zip" s).2 in
  (processDownload P "https://x/doc.zip" s).1 = true /\
  exists evs,
    trace P (processUnzip P "out" s1).2 = trace P s1 ++ evs /\
    requests evs = [Mkdir "out"; WriteFile "out/temp_download.zip" "PK-archive-bytes";
                    ZipOpen "out/temp_download.zip";
                    ZipEntries "out/temp_download.zip" "out"] /\
    (processUnzip P "out" s1).1 = Ok true.
Proof.
  intros P s s1.
  assert (H : (processDownload P "https://x/doc.zip" s).1 = true)
    by (vm_compute; reflexivity).
  split; [exact H |].
  destruct (fetched_bytes_are_extracted (P := P) "https://x/doc.zip" "out"
              (Some "application/zip") "PK-archive-bytes" s eq_refl H)
    as (evs & Ht & Hq & Hr).
  exists evs. split; [exact Ht |]. split; [exact Hq | exact Hr].
Defined.

(** ** A copy of the ledger is a snapshot *)

Section Snapshot.

Context {P : Platform}.

Lemma preserves_refl (s : Sys P) : preserves s s.
Proof. intros H. split; [done |]. split; [done |]. split; [by left | done]. Qed.

Lemma preserves_trans (a b c : Sys P) : preserves a b -> preserves b c -> preserves a c.
Proof.
  intros Hab Hbc Ha. destruct (Hab Ha) as (Hb & D1 & L1 & A1).
  destruct (Hbc Hb) as (Hc & D2 & L2 & A2).
  assert (D : forall l, l ∈ dom (arrays P a) -> l ∈ dom (arrays P b))
    by (intros l; apply D1).
  split; [done |]. split; [by etrans |]. split.
  - destruct L2 as [E2 | N2]; [by rewrite E2 |].
    right. intros Hin. by apply N2, D.
  - intros l Hl Hne. rewrite <- (A1 l Hl Hne). apply A2; [by apply D |].
    destruct L1 as [E1 | N1]; [by rewrite E1 |]. by intros ->.
Qed.

Lemma preserves_same (s s' : Sys P) :
  arrays P s' = arrays P s -> this_downloadHistory P s' = this_downloadHistory P s ->
  preserves s s'.
Proof.
  intros Ea El Ha. unfold ledgerAllocated. rewrite Ea, El.
  split; [done |]. split; [done |]. split; [by left | done].
Qed.

Lemma preserves_emit e : steps preserves (emit P e).
Proof. intros s. by apply preserves_same. Qed.

Lemma preserves_request A op f : steps preserves (@request P A op f).
Proof. intros s. unfold request. destruct (f (world P s)). by apply preserves_same. Qed.

Lemma preserves_newArray xs : steps preserves (newArray P xs).
Proof.
  intros s Ha. unfold newArray, ledgerAllocated in *. simpl.
  assert (Hf : fresh (dom (arrays P s)) ∉ dom (arrays P s)) by apply is_fresh.
  split; [set_solver |]. split; [set_solver |]. split; [by left |].
  intros l Hl _. apply lookup_insert_ne. intros <-. done.
Qed.

Lemma preserves_copy : steps preserves (getDownloadHistory P).
Proof. intros s. apply (preserves_newArray _ s). Qed.

Lemma preserves_push r : steps preserves (pushDownload P r).
Proof.
  intros s Ha. unfold pushDownload, array_push, ledgerAllocated in *. simpl.
  split; [set_solver |]. split; [set_solver |]. split; [by left |].
  intros l Hl Hne. by apply lookup_insert_ne.
Qed.

Lemma preserves_clear : steps preserves (clearDownloadHistory P).
Proof.
  intros s Ha. unfold clearDownloadHistory, newArray, ledgerAllocated in *. simpl.
  assert (Hf : fresh (dom (arrays P s)) ∉ dom (arrays P s)) by apply is_fresh.
  split; [set_solver |]. split; [set_solver |]. split; [by right |].
  intros l Hl _. apply lookup_insert_ne. intros <-. done.
Qed.

Ltac preserved :=
  first [ exact preserves_refl | exact preserves_trans
        | intros ? ?; apply preserves_emit | exact preserves_request
        | exact preserves_copy | exact preserves_push ].

Lemma perform_preserves c (s : Sys P) : preserves s (perform c s).
Proof.
  destruct c; cbn [perform].
  - apply (steps_processWorkflow preserves); preserved.
  - apply (steps_parseImplementationPlan preserves); preserved.
  - apply (steps_processDirective preserves); preserved.
  - apply (steps_processDownload preserves); preserved.
  - apply (steps_processUnzip preserves); preserved.
  - apply (steps_processValidate preserves); preserved.
  - apply (steps_processImplement preserves); preserved.
  - apply (steps_runFallbackFlow preserves); preserved.
  - apply preserves_copy.
  - apply preserves_clear.
Qed.

Lemma performAll_preserves calls : forall s : Sys P, preserves s (performAll calls s).
Proof.
  induction calls as [|c calls IH]; intros s; [apply preserves_refl |].
  eapply preserves_trans; [apply (perform_preserves c) | apply IH].
Qed.

(** X11.  The array that [getDownloadHistory] returns is a snapshot:
    whatever methods of the manager are called afterwards, fetches and
    the clearing of the ledger included, the returned array keeps the
    records that the ledger held when it was taken. *)
Theorem history_copy_is_snapshot (s : Sys P) (calls : list Call) :
  reachable s ->
  let copy := (getDownloadHistory P s).1 in
  let s1 := (getDownloadHistory P s).2 in
  contents P copy (performAll calls s1) = history P s.
Proof.
  intros Hr copy s1.
  pose proof (reachable_allocated s Hr) as Ha.
  destruct (getDownloadHistory_copy s) as [Hfresh Hcopy].
  fold copy in Hfresh, Hcopy. fold s1 in Hcopy.
  assert (Ha1 : ledgerAllocated s1) by (by apply keepsLedger_copy).
  destruct (performAll_preserves calls s1 Ha1) as (_ & _ & _ & Hkeep).
  unfold contents in *. rewrite Hkeep; [done | |].
  - subst s1 copy. unfold getDownloadHistory, newArray. simpl. set_solver.
  - intros E. apply Hfresh. unfold ledgerAllocated in Ha.
    replace (this_downloadHistory P s1) with (this_downloadHistory P s) in E by done.
    by rewrite E.
Qed.

End Snapshot.

Lemma history_copy_is_snapshot_witness :
  let P := Sim.platform in
  let s := perform (CallProcessDownload "https://x/doc.zip") (Sim.start Scenario.failing) in
  let copy := (getDownloadHistory P s).1 in
  let s1 := (getDownloadHistory P s).2 in
  reachable s /\
  contents P copy
    (performAll [CallProcessDownload "https://x/doc.zip"; CallClearDownloadHistory] s1)
  = history P s.
Proof.
  intros P s copy s1.
  assert (Hr : reachable s) by (apply reachable_call, reachable_new).
  split; [exact Hr |].
  exact (history_copy_is_snapshot s
           [CallProcessDownload "https://x/doc.zip"; CallClearDownloadHistory] Hr).
Defined.

(** ** What the parser keeps and what it skips *)

Section ParsedDirectives.

Lemma parseDirectives_in_order content :
  parseDirectives content = directivesInOrder (Str.splitLines content).
Proof. unfold parseDirectives. by rewrite fold_parseLine. Qed.

Lemma isDirectiveType_inv t :
  isDirectiveType t = true ->
  t = "download" \/ t = "unzip" \/ t = "validate" \/ t = "implement".
Proof.
  unfold isDirectiveType, directiveTypes. simpl. rewrite orb_false_r.
  intros H. repeat (apply orb_true_iff in H as [H | H]);
    apply String.eqb_eq in H; tauto.
Qed.

(** X12.  Every directive that the parser returns comes from a line of
    the plan, has one of the four known types, and is dispatched to
    exactly one handler, which receives its target: the branch for
    unknown types is never taken on a parsed plan. *)
Theorem parsed_directives_dispatch (P : Platform) (content : string) (d : Directive) :
  d ∈ parseDirectives content ->
  (exists line, line ∈ Str.splitLines content /\ directiveOfLine line = Some d) /\
  type d ∈ directiveTypes /\
  (exists m, handlerCall d = [(m, target d)]) /\
  (forall s : Sys P, exists m evs,
     trace P (processDirective P d s).2 = trace P s ++ evs /\
     entered evs = [(m, target d)]).
Proof.
  rewrite parseDirectives_in_order. unfold directivesInOrder.
  intros Hin. apply list_elem_of_omap in Hin as (line & Hline & Hd).
  split; [by exists line |].
  assert (Ht : type d = "download" \/ type d = "unzip" \/
               type d = "validate" \/ type d = "implement").
  { unfold directiveOfLine in Hd.
    destruct (matchListItem line) as [[verb tg]|]; [| done].
    destruct (isDirectiveType (Str.toLowerCase verb)) eqn:E; [| done].
    injection Hd as <-. by apply isDirectiveType_inv. }
  assert (Hcall : exists m, handlerCall d = [(m, target d)]).
  { unfold handlerCall.
    destruct Ht as [-> | [-> | [-> | ->]]]; simpl; by eexists. }
  split.
  - unfold directiveTypes.
    destruct Ht as [-> | [-> | [-> | ->]]]; repeat constructor.
  - split; [done |]. intros s. destruct Hcall as [m Hm]. exists m.
    destruct (processDirective_enters d s) as (evs & Htr & He).
    exists evs. by rewrite <- Hm.
Qed.

Lemma parsed_directives_dispatch_witness :
  let d := mkDirective "unzip" "out" "3. **unzip** out" in
  d ∈ parseDirectives Scenario.failingPlan /\
  type d ∈ directiveTypes.
Proof.
  intros d.
  assert (H : d ∈ parseDirectives Scenario.failingPlan).
  { apply list_elem_of_In. vm_compute. tauto. }
  split; [exact H |].
  exact (proj1 (proj2 (parsed_directives_dispatch Sim.platform Scenario.failingPlan d H))).
Defined.

(** *** Lines that are skipped *)

Lemma exec_star_close_all c s cur caps out :
  Regex.exec [Regex.NStar c; Regex.NClose] s cur caps = Some out ->
  forall x, lastChar s = Some x -> Regex.accepts c x = true.
Proof.
  induction s as [|a s IH]; rewrite exec_star_eq; intros H x Hx; [done |].
  destruct (Regex.accepts c a) eqn:Ea.
  - destruct (Regex.exec [Regex.NStar c; Regex.NClose] s cur caps) eqn:E.
    + simpl in Hx. destruct (lastChar s) as [b|] eqn:El.
      * injection Hx as <-. by apply IH.
      * by injection Hx as <-.
    + simpl in H. by destruct cur.
  - simpl in H. by destruct cur.
Qed.

Lemma exec_closing_group_last c s cur caps out :
  Regex.exec [Regex.NOpen; Regex.NChar c; Regex.NStar c; Regex.NClose] s cur caps
    = Some out ->
  exists x, lastChar s = Some x /\ Regex.accepts c x = true.
Proof.
  simpl. destruct s as [|a s]; [done |].
  destruct (Regex.accepts c a) eqn:Ea; [| done].
  change ((fix star (s0 : string) : option (list string) := _) s)
    with (Regex.exec [Regex.NStar c; Regex.NClose] s (Some (String a s)) caps).
  intros H. simpl. destruct (lastChar s) as [b|] eqn:El.
  - exists b. split; [done |]. by apply (exec_star_close_all c s _ _ _ H).
  - by exists a.
Qed.

Lemma lastChar_app front tail x :
  lastChar tail = Some x -> lastChar (front +:+ tail) = Some x.
Proof.
  intros H. induction front as [|a front IH]; [done |].
  rewrite append_cons. simpl. by rewrite IH.
Qed.

Lemma exec_last_group_last pre c :
  forall s cur caps out,
  Regex.exec (pre ++ [Regex.NOpen; Regex.NChar c; Regex.NStar c; Regex.NClose])
    s cur caps = Some out ->
  exists x, lastChar s = Some x /\ Regex.accepts c x = true.
Proof.
  induction pre as [|n pre IH]; intros s cur caps out H.
  - by apply exec_closing_group_last in H.
  - destruct n; rewrite <- app_comm_cons in H.
    + simpl in H. destruct s as [|a s]; [done |].
      destruct (Regex.accepts c0 a); [| done].
      destruct (IH _ _ _ _ H) as (x & Hl & Hx).
      exists x. split; [| done]. simpl. by rewrite Hl.
    + apply exec_star_inv in H as (f1 & rest & -> & H).
      destruct (IH _ _ _ _ H) as (x & Hl & Hx).
      exists x. split; [| done]. by apply lastChar_app.
    + simpl in H. eauto.
    + simpl in H. destruct cur; [eauto | done].
Qed.

Lemma unlisted_no_match line : unlisted line = true -> matchListItem line = None.
Proof.
  intros Hu. destruct (matchListItem line) as [[ty tg]|] eqn:E; [| done].
  apply orb_true_iff in Hu as [Hd | Hc].
  - apply matchListItem_shape in E as [(a & rest & -> & Hdig) _].
    simpl in Hd. by rewrite Hdig in Hd.
  - apply bool_decide_eq_true in Hc.
    unfold matchListItem in E. rewrite listItemRegex_nodes in E.
    destruct (Regex.run _ line) as [out|] eqn:Er; [| done].
    apply exec_last_group_last in Er as (x & Hl & Hx).
    rewrite Hc in Hl. by injection Hl as <-.
Qed.

(** X13.  A line that does not open with a digit, be it an indented
    list item, and a line that ends in a carriage return give no
    directive; so a plan in which every line is of these kinds, such as
    a plan saved with carriage returns before its line feeds, parses to
    no directive at all. *)
Theorem unlisted_lines_are_skipped (content : string) :
  forallb unlisted (Str.splitLines content) = true ->
  parseDirectives content = [].
Proof.
  rewrite parseDirectives_in_order. unfold directivesInOrder.
  induction (Str.splitLines content) as [|line lines IH]; [done |].
  simpl. intros H. apply andb_true_iff in H as [Hl Hr].
  unfold directiveOfLine at 1. rewrite (unlisted_no_match line Hl). by apply IH.
Qed.

Lemma unlisted_lines_are_skipped_witness :
  forallb unlisted (Str.splitLines Plans.windows) = true /\
  parseDirectives Plans.windows = [].
Proof.
  assert (H : forallb unlisted (Str.splitLines Plans.windows) = true)
    by (vm_compute; reflexivity).
  split; [exact H |]. exact (unlisted_lines_are_skipped Plans.windows H).
Defined.

End ParsedDirectives.

(** ** The verdict of a workflow run *)

Section Verdict.

Context {P : Platform}.

Lemma runDirectives_verdict ds : forall s : Sys P,
  (runDirectives P ds s).1 = true <->
  allSucceed ds s = true \/
  exists e, rejection ds s = Some e /\ isENOENT e = true.
Proof.
  induction ds as [|d ds IH]; intros s; simpl.
  - split; [by left | done].
  - unfold mbind, M_bind.
    destruct (processDirective P d s) as [[[]|e] s'] eqn:E; simpl.
    + apply IH.
    + split; [done | by intros [? | (? & ? & _)]].
    + destruct (workflowFailed_trace e s') as (_ & _ & _ & ->).
      split; [intros H; right; by exists e |].
      intros [? | (e' & [= <-] & H)]; done.
Qed.

Lemma runDirectives_all ds : forall s : Sys P,
  allSucceed ds s = true -> runDirectives P ds s = (true, stateAfter ds s).
Proof.
  intros s H. rewrite <- (app_nil_r ds) at 1.
  by rewrite (runDirectives_by_steps ds [] s H).
Qed.

Lemma processWorkflow_unfold (s : Sys P) :
  processWorkflow P s =
  match (parseImplementationPlan P s).1 with
  | Throw e => workflowFailed P e (parseImplementationPlan P s).2
  | Ok ds =>
      if Nat.eqb (length ds) 0 then
        (console_log P "No directives found in implementation_plan.md, running fallback download→unzip flow";;
         runFallbackFlow P) (parseImplementationPlan P s).2
      else runDirectives P ds (parseImplementationPlan P s).2
  end.
Proof.
  unfold processWorkflow. unfold mbind at 1. unfold M_bind at 1.
  destruct (parseImplementationPlan P s) as [[ds | e] s0]; simpl; [| done].
  by destruct (length ds =? 0)%nat.
Qed.

(** X14.  A workflow run returns true in these cases and no other: the
    plan cannot be read for a missing file; the plan holds no directive;
    every directive succeeds; or a handler rejects with a missing-file
    error before any directive has failed. *)
Theorem workflow_verdict (s : Sys P) :
  let s0 := (parseImplementationPlan P s).2 in
  (processWorkflow P s).1 = true <->
  match (parseImplementationPlan P s).1 with
  | Throw e => isENOENT e = true
  | Ok ds =>
      ds = [] \/ allSucceed ds s0 = true \/
      exists e, rejection ds s0 = Some e /\ isENOENT e = true
  end.
Proof.
  intros s0. rewrite processWorkflow_unfold. fold s0.
  destruct (parseImplementationPlan P s).1 as [ds | e].
  - destruct ds as [|d ds]; [by split; [left |] |].
    replace (length (d :: ds) =? 0)%nat with false by done.
    rewrite runDirectives_verdict.
    split; [by right | by intros [? | ?]].
  - by destruct (workflowFailed_trace e s0) as (_ & _ & _ & ->).
Qed.

(** X15.  When the plan holds directives and each of them succeeds, the
    run returns true in the state that the handlers leave when they run
    one after the other; each directive has entered its handler once, in
    the order of the plan, and the fallback has not run. *)
Theorem workflow_runs_every_directive (s : Sys P) (ds : list Directive) :
  let s0 := (parseImplementationPlan P s).2 in
  (parseImplementationPlan P s).1 = Ok ds ->
  ds <> [] ->
  allSucceed ds s0 = true ->
  processWorkflow P s = (true, stateAfter ds s0) /\
  exists evs,
    trace P (processWorkflow P s).2 = trace P s0 ++ evs /\
    entered evs = concat (map handlerCall ds) /\
    (MFallback, "") ∉ entered evs.
Proof.
  intros s0 Hparse Hne Hall.
  assert (Hrun : processWorkflow P s = (true, stateAfter ds s0)).
  { rewrite processWorkflow_unfold, Hparse. fold s0.
    destruct ds as [|d ds]; [done |].
    replace (length (d :: ds) =? 0)%nat with false by done.
    by apply runDirectives_all. }
  split; [done |]. rewrite Hrun. simpl.
  destruct (stateAfter_enters ds s0) as (evs & Ht & He).
  exists evs. split; [done |]. split; [done |].
  rewrite He. clear. induction ds as [|d ds IH]; simpl.
  - apply not_elem_of_nil.
  - rewrite elem_of_app. intros [H | H]; [| done].
    by apply (handlerCall_no_fallback d).
Qed.

(** X16.  When the plan file is missing, the run asks for nothing but
    the plan, enters the fallback and no handler, leaves the ledger as it
    was and returns true: the fallback flow fetches and extracts
    nothing. *)
Theorem fallback_does_nothing (s : Sys P) (e : Thrown) :
  (fs_readFile P (this_implementationPlanPath P s) (world P s)).1 = Throw e ->
  isENOENT e = true ->
  (processWorkflow P s).1 = true /\
  history P (processWorkflow P s).2 = history P s /\
  exists evs,
    trace P (processWorkflow P s).2 = trace P s ++ evs /\
    requests evs = [ReadFile (this_implementationPlanPath P s)] /\
    entered evs = [(MFallback, "")] /\
    errors evs = [].
Proof.
  intros Hread He.
  unfold processWorkflow, parseImplementationPlan, mbind, M_bind, request. simpl.
  destruct (fs_readFile P (this_implementationPlanPath P s) (world P s)) as [r w].
  simpl in Hread. subst r. simpl. unfold workflowFailed. rewrite He. simpl.
  split; [done |]. split; [done |].
  eexists. rewrite <- !app_assoc. by repeat split.
Qed.

End Verdict.

Lemma workflow_runs_every_directive_witness :
  let P := Sim.platform in
  let s := Sim.start Fetching.world in
  let ds := [mkDirective "download" "https://x/doc.zip" "1. **download** https://x/doc.zip";
             mkDirective "unzip" "out" "2. **unzip** out"] in
  (parseImplementationPlan P s).1 = Ok ds /\
  (processWorkflow P s).1 = true /\
  exists evs,
    trace P (processWorkflow P s).2 = trace P (parseImplementationPlan P s).2 ++ evs /\
    entered evs = [(MDownload, "https://x/doc.zip"); (MUnzip, "out")].
Proof.
  intros P s ds.
  assert (Hp : (parseImplementationPlan P s).1 = Ok ds) by (vm_compute; reflexivity).
  assert (Hall : allSucceed ds (parseImplementationPlan P s).2 = true)
    by (vm_compute; reflexivity).
  split; [exact Hp |].
  destruct (workflow_runs_every_directive s ds Hp ltac:(done) Hall)
    as (Hrun & evs & Ht & He & _).
  split; [exact (f_equal fst Hrun) |]. exists evs. split; [exact Ht | exact He].
Defined.

Lemma fallback_does_nothing_witness :
  let P := Sim.platform in
  let s := Sim.start Scenario.missing in
  isENOENT (Sim.enoent Scenario.planPath) = true /\
  (processWorkflow P s).1 = true /\
  history P (processWorkflow P s).2 = history P s.
Proof.
  intros P s.
  assert (He : isENOENT (Sim.enoent Scenario.planPath) = true)
    by (vm_compute; reflexivity).
  split; [exact He |].
  destruct (fallback_does_nothing s (Sim.enoent Scenario.planPath) eq_refl He)
    as (Hr & Hh & _).
  split; [exact Hr | exact Hh].
Defined.

(** ** The tool dispatcher *)

Section Tools.

Context {P : Platform}.

(** X17.  The answer to a tool call, with arguments that conform to the
    input schema when it has any, is flagged as an error in three cases
    only: the tool is unknown; the extraction rejects; or the call comes
    without arguments and names a tool that reads them, that is any known
    tool but [process_workflow].  A fetch, a validation, a script or a
    workflow that fails, and an extraction that returns false, are
    answered with a text that says so and without the error flag. *)
Theorem tool_failures_are_not_flagged (c : ToolCall) (s : Sys P) :
  isErrorResponse (callTool P c s).1 = true <->
  (exists name, c = unknown_tool name) \/
  (exists targetPath e,
     c = extract_archive targetPath /\
     (processUnzip P (orDefault (default "" targetPath) "documentation") s).1 = Throw e) \/
  (exists name, c = without_arguments name /\ name <> "process_workflow").
Proof.
  destruct c as [url | targetPath | pattern basePath | scriptName | planPath
                | name | name];
    unfold callTool, mbind, M_bind.
  - destruct (processDownload P url s) as [b s']. simpl.
    split; [done | by intros [[? ?] | [(? & ? & ? & _) | (? & ? & _)]]].
  - destruct (processUnzip P _ s) as [[[]|e] s'] eqn:E; simpl.
    + split; [done |].
      intros [[? ?] | [(tp & e & [= <-] & H) | (? & ? & _)]]; try done.
      by rewrite E in H.
    + split; [done |].
      intros [[? ?] | [(tp & e & [= <-] & H) | (? & ? & _)]]; try done.
      by rewrite E in H.
    + split; [intros _ | done]. right. left. exists targetPath, e. by rewrite E.
  - destruct (processValidate P pattern s) as [b s']. simpl.
    split; [done | by intros [[? ?] | [(? & ? & ? & _) | (? & ? & _)]]].
  - destruct (processImplement P scriptName s) as [b s']. simpl.
    split; [done | by intros [[? ?] | [(? & ? & ? & _) | (? & ? & _)]]].
  - destruct (processWorkflow P s) as [b s']. simpl.
    split; [done | by intros [[? ?] | [(? & ? & ? & _) | (? & ? & _)]]].
  - simpl. split; [intros _; left; by exists name | done].
  - assert (Hflag : forall e, isErrorResponse (toolFailed name e) = true) by done.
    assert (Hyes : name <> "process_workflow" ->
              (exists n, without_arguments name = unknown_tool n) \/
              (exists tp e, without_arguments name = extract_archive tp /\
                 (processUnzip P (orDefault (default "" tp) "documentation") s).1
                 = Throw e) \/
              (exists n, without_arguments name = without_arguments n /\
                 n <> "process_workflow"))
      by (intros Hn; right; right; by exists name).
    destruct (String.eqb name "download_file") eqn:E1;
      [apply String.eqb_eq in E1; subst; by split; [intros _; apply Hyes |] |].
    destruct (String.eqb name "extract_archive") eqn:E2;
      [apply String.eqb_eq in E2; subst; by split; [intros _; apply Hyes |] |].
    destruct (String.eqb name "validate_patterns") eqn:E3;
      [apply String.eqb_eq in E3; subst; by split; [intros _; apply Hyes |] |].
    destruct (String.eqb name "execute_script") eqn:E4;
      [apply String.eqb_eq in E4; subst; by split; [intros _; apply Hyes |] |].
    destruct (String.eqb name "process_workflow") eqn:E5.
    + apply String.eqb_eq in E5. subst.
      destruct (processWorkflow P s) as [b s']. simpl.
      split; [done |].
      intros [[? ?] | [(? & ? & ? & _) | (n & [= <-] & Hn)]]; done.
    + apply String.eqb_neq in E5. simpl. by split; [intros _; apply Hyes |].
Qed.

End Tools.

(** ** The parser on a plan written line by line *)

Section PlanLines.

Import Plan.





(** *** Lines and documents *)



(** *** The list-item pattern on an item *)








Lemma star_not_white : Str.isWhiteSpace "*" = false.
Proof. reflexivity. Qed.


(** *** Trimming what has no white space at its ends *)




(** *** One line *)








End PlanLines.
